(** * Nachos file headers (filesys/filehdr.cc): block-index nodes

    A shallow embedding of [FileHeader] and of the operations of
    filehdr.cc, together with the two collaborators the file header talks
    to: the bitmap of free sectors and the synchronous disk.

    Conventions.
    - C [int] values are integers of [Z].  On the paths modelled here every
      intermediate value lies between the operands of the call (sizes are
      only divided, compared and decreased), so no wrap-around occurs.
    - [n / s] and [n % s] of C truncate towards zero: [Z.quot], [Z.rem].
    - [MaxFileSize] and [NumDirect] are sizes (values of [size_t]): where the
      code compares the [int] it was given with one of them, the [int] is
      converted to the unsigned type ([gtu]).  The counters [numBytes] and
      [numSectors] of a header are compared with them as integers, which
      is the comparison of the program as long as the counters are not
      negative.
    - An object has, besides the fields that a sector holds, the pointer
      [indirect] to the object of the header chained after it; a call
      through a pointer that was never assigned does not return.
    - The methods mutate [this], the free map and the disk; here they take
      them as arguments and return the new ones.
    - A call has three outcomes: it returns; it stops on an [ASSERT], on
      an access outside [dataSectors] or on a call through a pointer that
      was never assigned; or its recursion does not end within the fuel it
      was given. *)

From Stdlib Require Import ZArith Lia.
From stdpp Require Import base option list gmap.

Local Open Scope Z_scope.

(** ** Outcomes of a call *)

Inductive outcome (A : Type) : Type :=
  | Done (a : A)
  | Fault
  | Diverge.
Arguments Done {A} a.
Arguments Fault {A}.
Arguments Diverge {A}.

#[global] Instance outcome_ret : MRet outcome := λ A a, Done a.
#[global] Instance outcome_bind : MBind outcome := λ A B f m,
  match m with
  | Done a => f a
  | Fault => Fault
  | Diverge => Diverge
  end.

(** ** Constants of filehdr.h and disk.h

    The header files are not part of the sources at hand; the constants
    they define are the fields of [Geometry]. *)

Class Geometry : Type := mkGeometry {
  SectorSize : Z;
  NumDirect : Z;
  MaxFileSize : Z
}.

(** The values of the Nachos distribution: 128-byte sectors, and a header
    of two counters and thirty sector numbers filling one sector. *)
Definition nachos_geometry : Geometry :=
  {| SectorSize := 128; NumDirect := 30; MaxFileSize := 30 * 128 |}.

(** What the code relies on: sectors are not empty and a header has a
    direct slot besides its last one. *)
Definition geometry_ok (G : Geometry) : Prop :=
  0 < SectorSize ∧ 1 < NumDirect.

(** A header (two [int]s and [NumDirect] sector numbers) is no larger than
    one sector. *)
Definition header_fits (G : Geometry) : Prop :=
  8 + 4 * NumDirect ≤ SectorSize.

(** Modelled from the spec: [divRoundUp] of utility.h, which is not among
    the sources; the spec writes it [ceil(bytes / sector_size)]. *)
Definition divRoundUp (n s : Z) : Z :=
  Z.quot n s + (if 0 <? Z.rem n s then 1 else 0).

(** ** Comparison of an [int] with a size *)

(** Modelled from the spec: the length of the array is derived from
    [size_of] the fields of a header, so that [NumDirect] and
    [MaxFileSize] have the unsigned type of [sizeof].  In [a > b] with an
    [int] [a] and such a size [b], the usual arithmetic conversions turn
    [a] into an unsigned value, and a negative [a] becomes larger than
    every size: [gtu a b] is this comparison. *)
Definition gtu (a b : Z) : bool := (a <? 0) || (a >? b).

(** ** The free-sector map *)

(** Modelled from the spec: the bitmap of free sectors, of which the
    sources only contain the calls.  A bit is [true] when the sector is
    allocated. *)
Abbreviation BitMap := (list bool).

Fixpoint first_clear (bits : list bool) : option nat :=
  match bits with
  | [] => None
  | b :: rest => if b then S <$> first_clear rest else Some 0%nat
  end.

(** Modelled from the spec: [Find() -> sector or none]; the sector found is
    marked as a side effect, and "none" is the integer -1.  The sector found
    is the first clear one; the general properties below only use that it is
    a clear one. *)
Definition Find (fm : BitMap) : Z * BitMap :=
  match first_clear fm with
  | Some i => (Z.of_nat i, <[i := true]> fm)
  | None => (-1, fm)
  end.

(** Modelled from the spec: [Test(sector) -> bool]; a number that names no
    sector is not marked. *)
Definition Test (fm : BitMap) (which : Z) : bool :=
  if 0 <=? which then default false (fm !! Z.to_nat which) else false.

(** Modelled from the spec: [Clear(sector)]. *)
Definition Clear (fm : BitMap) (which : Z) : BitMap :=
  if 0 <=? which then <[Z.to_nat which := false]> fm else fm.

(** Modelled from the spec: [NumClear() -> count]. *)
Fixpoint NumClear (fm : BitMap) : Z :=
  match fm with
  | [] => 0
  | b :: rest => (if b then 0 else 1) + NumClear rest
  end.

(** ** The disk *)

(** Modelled from the spec: the disk, a store of sectors of [SectorSize]
    bytes each; [ReadSector] and [WriteSector] transfer exactly one sector.
    A byte is an integer, read modulo 256.  A sector never written reads as
    zeros, and the number of a sector is not checked: the checks of the
    device are its own. *)
Abbreviation Disk := (gmap Z (list Z)).

Definition sector_bytes {G : Geometry} (bs : list Z) : list Z :=
  take (Z.to_nat SectorSize) (bs ++ replicate (Z.to_nat SectorSize) 0).

Definition ReadSector {G : Geometry} (d : Disk) (sector : Z) : list Z :=
  sector_bytes (default [] (d !! sector)).

Definition WriteSector {G : Geometry} (d : Disk) (sector : Z) (data : list Z) : Disk :=
  <[sector := sector_bytes data]> d.

(** ** File headers *)

(** An object of the class: the two counters and the array, which are
    what a sector holds of a header, and the pointer [indirect] to the
    object of the header chained after this one.  The code assigns the
    pointer where it creates that object ([indirect = new FileHeader] in
    [Allocate] and in [Extend]) and nowhere else; [None] is a pointer that
    was never assigned. *)
#[local] Unset Elimination Schemes.
Inductive FileHeader : Type := mkFileHeader {
  numBytes : Z;
  numSectors : Z;
  dataSectors : list Z;
  indirect : option FileHeader
}.
#[local] Set Elimination Schemes.

(** What a sector holds of a header. *)
Definition stored (h : FileHeader) : Z * Z * list Z :=
  (numBytes h, numSectors h, dataSectors h).

(** The object as bytes: a 32-bit [int] is four bytes, least significant
    first, in two's complement. *)
Definition int_bytes (z : Z) : list Z :=
  [z mod 256; (z / 256) mod 256; (z / 65536) mod 256; (z / 16777216) mod 256].

Definition byte_at (bs : list Z) (i : nat) : Z := nth i bs 0 mod 256.

Definition bytes_int (bs : list Z) : Z :=
  let u := byte_at bs 0 + 256 * byte_at bs 1 + 65536 * byte_at bs 2
           + 16777216 * byte_at bs 3 in
  if u <? 2147483648 then u else u - 4294967296.

Definition header_bytes (h : FileHeader) : list Z :=
  flat_map int_bytes (numBytes h :: numSectors h :: dataSectors h).

Definition read_int (mem : list Z) (i : nat) : Z :=
  bytes_int (take 4 (drop (4 * i) mem)).

(** The object that has the counters and the array found in [mem], and the
    pointer [pointer]. *)
Definition header_of_bytes {G : Geometry} (pointer : option FileHeader)
    (mem : list Z) : FileHeader :=
  {| numBytes := read_int mem 0;
     numSectors := read_int mem 1;
     dataSectors := (λ i, read_int mem (2 + i)) <$> seq 0 (Z.to_nat NumDirect);
     indirect := pointer |}.

(** Modelled from the spec: a node is created in memory with zero sectors
    and zero length (the constructor is declared in filehdr.h); nothing
    is chained after it, and its pointer [indirect] is not assigned. *)
Definition newFileHeader {G : Geometry} : FileHeader :=
  {| numBytes := 0; numSectors := 0;
     dataSectors := replicate (Z.to_nat NumDirect) 0;
     indirect := None |}.

(** [FetchFrom]: [ReadSector(sector, (char * )this)] overwrites the first
    [SectorSize] bytes of the object; what lies beyond them keeps its old
    value.  The counters and the array are what a sector holds of a header
    (the spec: a node is serialized to exactly one sector); the pointer
    [indirect] lies after them, the transfer does not reach it, and
    [FetchFrom] leaves it as it was. *)
Definition FetchFrom {G : Geometry} (this : FileHeader) (d : Disk) (sector : Z)
  : FileHeader :=
  header_of_bytes (indirect this)
    (ReadSector d sector ++ drop (Z.to_nat SectorSize) (header_bytes this)).

(** [WriteBack]: [WriteSector(sector, (char * )this)] copies the first
    [SectorSize] bytes of the object. *)
Definition WriteBack {G : Geometry} (this : FileHeader) (d : Disk) (sector : Z)
  : Disk :=
  WriteSector d sector (header_bytes this).

(** [indirect->FetchFrom(sector)]: the object that [indirect] points to
    receives the header stored in the sector.  Nothing assigns the pointer
    of an object that was only constructed, or constructed and fetched from
    the disk: the call through it is undefined, and does not return. *)
Definition fetch_indirect {G : Geometry} (this : FileHeader) (d : Disk)
    (sector : Z) : outcome FileHeader :=
  match indirect this with
  | Some child => Done (FetchFrom child d sector)
  | None => Fault
  end.

(** The free map and the disk the operations work on. *)
Record World : Type := mkWorld {
  freeMap : BitMap;
  synchDisk : Disk
}.

(** [dataSectors[i] = s] and [dataSectors[i]]; outside the array the
    behaviour of the program is undefined. *)
Definition store (ds : list Z) (i s : Z) : outcome (list Z) :=
  if (0 <=? i) && (i <? Z.of_nat (length ds))
  then Done (<[Z.to_nat i := s]> ds) else Fault.

Definition load (ds : list Z) (i : Z) : outcome Z :=
  if 0 <=? i then
    match ds !! Z.to_nat i with Some s => Done s | None => Fault end
  else Fault.

(** [for (i = lo; i < lo + n; i++) dataSectors[i] = freeMap->Find();] *)
Fixpoint find_loop (n : nat) (i : Z) (ds : list Z) (fm : BitMap)
  : outcome (list Z * BitMap) :=
  match n with
  | O => Done (ds, fm)
  | S n' =>
      let '(s, fm') := Find fm in
      ds' ← store ds i s;
      find_loop n' (i + 1) ds' fm'
  end.

Definition with_size (this : FileHeader) (bytes sectors : Z) : FileHeader :=
  {| numBytes := bytes; numSectors := sectors;
     dataSectors := dataSectors this; indirect := indirect this |}.

Definition with_sectors (this : FileHeader) (ds : list Z) : FileHeader :=
  {| numBytes := numBytes this; numSectors := numSectors this;
     dataSectors := ds; indirect := indirect this |}.

(** [indirect = new FileHeader], with what the calls on the new object
    leave in it. *)
Definition with_indirect (this child : FileHeader) : FileHeader :=
  {| numBytes := numBytes this; numSectors := numSectors this;
     dataSectors := dataSectors this; indirect := Some child |}.

(** [FileHeader::Allocate].  The result is the value returned, the header
    and the world after the call. *)
Fixpoint Allocate {G : Geometry} (fuel : nat) (this : FileHeader) (w : World)
    (fileSize : Z) : outcome (bool * FileHeader * World) :=
  match fuel with
  | O => Diverge
  | S fuel' =>
      if gtu fileSize MaxFileSize then Done (false, this, w) else
      let this1 := with_size this fileSize (divRoundUp fileSize SectorSize) in
      if NumClear (freeMap w) <? numSectors this1 then Done (false, this1, w) else
      if gtu fileSize ((NumDirect - 1) * SectorSize) then
        '(ds, fm1) ← find_loop (Z.to_nat (NumDirect - 1)) 0
                        (dataSectors this1) (freeMap w);
        '(ok, child, w2) ←
            Allocate fuel' newFileHeader (mkWorld fm1 (synchDisk w))
                     (fileSize - (NumDirect - 1) * SectorSize);
        let this2 := with_indirect (with_sectors this1 ds) child in
        if ok : bool then
          let '(s, fm3) := Find (freeMap w2) in
          ds' ← store ds (NumDirect - 1) s;
          Done (true, with_sectors this2 ds',
                mkWorld fm3 (WriteBack child (synchDisk w2) s))
        else Done (false, this2, w2)
      else
        '(ds, fm1) ← find_loop (Z.to_nat (numSectors this1)) 0
                        (dataSectors this1) (freeMap w);
        Done (true, with_sectors this1 ds, mkWorld fm1 (synchDisk w))
  end.

(** [FileHeader::Extend].  The value that [indirect->Allocate] returns is
    not looked at.  When the header is chained already, the object behind
    [indirect] is fetched, extended and written back; it keeps what these
    calls leave in it. *)
Fixpoint Extend {G : Geometry} (fuel : nat) (this : FileHeader) (w : World)
    (fileSize : Z) : outcome (bool * FileHeader * World) :=
  match fuel with
  | O => Diverge
  | S fuel' =>
      let newNumBytes := fileSize in
      let newNumSectors := divRoundUp fileSize SectorSize in
      if gtu newNumSectors MaxFileSize then Done (false, this, w) else
      if NumClear (freeMap w) <? newNumSectors then Done (false, this, w) else
      if gtu fileSize ((NumDirect - 1) * SectorSize) then
        if numBytes this <=? (NumDirect - 1) * SectorSize then
          '(ds, fm1) ← find_loop (Z.to_nat (NumDirect - 1 - numSectors this))
                          (numSectors this) (dataSectors this) (freeMap w);
          '(_, child, w2) ←
              Allocate fuel' newFileHeader (mkWorld fm1 (synchDisk w))
                       (fileSize - (NumDirect - 1) * SectorSize);
          let '(s, fm3) := Find (freeMap w2) in
          ds' ← store ds (NumDirect - 1) s;
          Done (true, mkFileHeader newNumBytes newNumSectors ds' (Some child),
                mkWorld fm3 (WriteBack child (synchDisk w2) s))
        else
          s ← load (dataSectors this) (NumDirect - 1);
          child ← fetch_indirect this (synchDisk w) s;
          '(ok, child', w1) ←
              Extend fuel' child w (fileSize - (NumDirect - 1) * SectorSize);
          if ok : bool then
            Done (true,
                  mkFileHeader newNumBytes newNumSectors (dataSectors this)
                               (Some child'),
                  mkWorld (freeMap w1) (WriteBack child' (synchDisk w1) s))
          else Done (false, with_indirect this child', w1)
      else
        '(ds, fm1) ← find_loop (Z.to_nat (newNumSectors - numSectors this))
                        (numSectors this) (dataSectors this) (freeMap w);
        Done (true, mkFileHeader newNumBytes newNumSectors ds (indirect this),
              mkWorld fm1 (synchDisk w))
  end.

(** [ASSERT(freeMap->Test(s)); freeMap->Clear(s);] *)
Definition release (fm : BitMap) (s : Z) : outcome BitMap :=
  if Test fm s then Done (Clear fm s) else Fault.

(** [for (i = lo; i < lo + n; i++) { ASSERT(Test(dataSectors[i]));
    Clear(dataSectors[i]); }] *)
Fixpoint clear_loop (n : nat) (i : Z) (ds : list Z) (fm : BitMap)
  : outcome BitMap :=
  match n with
  | O => Done fm
  | S n' =>
      s ← load ds i;
      fm' ← release fm s;
      clear_loop n' (i + 1) ds fm'
  end.

(** [FileHeader::Deallocate].  The object behind [indirect] is left with
    the header that was fetched into it; every later use of that object
    begins with a [FetchFrom], or with a new object, and the result does
    not carry it.  The same holds for [ByteToSector] and [Print]. *)
Fixpoint Deallocate {G : Geometry} (fuel : nat) (this : FileHeader) (w : World)
  : outcome World :=
  match fuel with
  | O => Diverge
  | S fuel' =>
      if numSectors this <=? NumDirect then
        fm ← clear_loop (Z.to_nat (numSectors this)) 0 (dataSectors this)
               (freeMap w);
        Done (mkWorld fm (synchDisk w))
      else
        fm1 ← clear_loop (Z.to_nat (NumDirect - 1)) 0 (dataSectors this)
                (freeMap w);
        s ← load (dataSectors this) (NumDirect - 1);
        child ← fetch_indirect this (synchDisk w) s;
        w2 ← Deallocate fuel' child (mkWorld fm1 (synchDisk w));
        fm3 ← release (freeMap w2) s;
        Done (mkWorld fm3 (synchDisk w2))
  end.

(** [FileHeader::ByteToSector] *)
Fixpoint ByteToSector {G : Geometry} (fuel : nat) (this : FileHeader) (d : Disk)
    (offset : Z) : outcome Z :=
  match fuel with
  | O => Diverge
  | S fuel' =>
      if numSectors this <=? NumDirect - 1 then
        load (dataSectors this) (Z.quot offset SectorSize)
      else
        s ← load (dataSectors this) (NumDirect - 1);
        child ← fetch_indirect this d s;
        ByteToSector fuel' child d (offset - (NumDirect - 1) * SectorSize)
  end.

(** [FileHeader::FileLength] *)
Definition FileLength (this : FileHeader) : Z := numBytes this.

(** What [Print] sends to the standard output, one item per [printf]. *)
Inductive output : Type :=
  | OutFileSize (size : Z)
  | OutBlock (sector : Z)
  | OutContents
  | OutChar (c : Z)
  | OutHex (c : Z)
  | OutNewline.

(** A byte is printed as a character when it is between ['\040'] and
    ['\176'], and in hexadecimal otherwise. *)
Definition render (c : Z) : output :=
  let b := c mod 256 in
  if (32 <=? b) && (b <=? 126) then OutChar b else OutHex b.

(** [for (i = lo; i < lo + n; i++) printf("%d ", dataSectors[i]);] *)
Fixpoint print_blocks (n : nat) (i : Z) (ds : list Z) : outcome (list output) :=
  match n with
  | O => Done []
  | S n' =>
      s ← load ds i;
      rest ← print_blocks n' (i + 1) ds;
      Done (OutBlock s :: rest)
  end.

(** The loop over the data sectors: sector [i] is read and its bytes are
    printed while [j < SectorSize] and [k < numBytes]. *)
Fixpoint print_contents {G : Geometry} (n : nat) (i k : Z) (this : FileHeader)
    (d : Disk) : outcome (list output) :=
  match n with
  | O => Done []
  | S n' =>
      s ← load (dataSectors this) i;
      let shown := take (Z.to_nat (numBytes this - k)) (ReadSector d s) in
      rest ← print_contents n' (i + 1) (k + Z.of_nat (length shown)) this d;
      Done ((render <$> shown) ++ OutNewline :: rest)
  end.

(** [FileHeader::Print] *)
Fixpoint Print {G : Geometry} (fuel : nat) (this : FileHeader) (d : Disk)
  : outcome (list output) :=
  match fuel with
  | O => Diverge
  | S fuel' =>
      if numSectors this <=? NumDirect - 1 then
        blocks ← print_blocks (Z.to_nat (numSectors this)) 0 (dataSectors this);
        contents ← print_contents (Z.to_nat (numSectors this)) 0 0 this d;
        Done (OutFileSize (numBytes this) :: blocks ++ OutContents :: contents)
      else
        blocks ← print_blocks (Z.to_nat (NumDirect - 1)) 0 (dataSectors this);
        contents ← print_contents (Z.to_nat (NumDirect - 1)) 0 0 this d;
        s ← load (dataSectors this) (NumDirect - 1);
        child ← fetch_indirect this d s;
        rest ← Print fuel' child d;
        Done (OutFileSize (numBytes this) :: blocks ++ OutContents :: contents
              ++ rest)
  end.

(** ** The interface of the class

    One call of a public method on the object [this]: the value returned,
    the object and the world after the call. *)

Inductive call : Type :=
  | CallAllocate (fileSize : Z)
  | CallExtend (fileSize : Z)
  | CallDeallocate
  | CallFetchFrom (sector : Z)
  | CallWriteBack (sector : Z)
  | CallByteToSector (offset : Z)
  | CallFileLength
  | CallPrint.

Inductive value : Type :=
  | VBool (b : bool)
  | VInt (z : Z)
  | VOutput (out : list output)
  | VVoid.

Definition invoke {G : Geometry} (fuel : nat) (c : call) (this : FileHeader)
    (w : World) : outcome (value * FileHeader * World) :=
  match c with
  | CallAllocate fileSize =>
      '(ok, this', w') ← Allocate fuel this w fileSize;
      Done (VBool ok, this', w')
  | CallExtend fileSize =>
      '(ok, this', w') ← Extend fuel this w fileSize;
      Done (VBool ok, this', w')
  | CallDeallocate =>
      w' ← Deallocate fuel this w;
      Done (VVoid, this, w')
  | CallFetchFrom sector =>
      Done (VVoid, FetchFrom this (synchDisk w) sector, w)
  | CallWriteBack sector =>
      Done (VVoid, this, mkWorld (freeMap w) (WriteBack this (synchDisk w) sector))
  | CallByteToSector offset =>
      s ← ByteToSector fuel this (synchDisk w) offset;
      Done (VInt s, this, w)
  | CallFileLength => Done (VInt (FileLength this), this, w)
  | CallPrint =>
      out ← Print fuel this (synchDisk w);
      Done (VOutput out, this, w)
  end.

(** ** The layout of a file, as the data model describes it

    Slots [0 .. NumDirect-2] of a node hold the first [NumDirect-1] sectors
    of the region of the node; when the region is larger, the rest of it is
    the region of the child node, whose header is in the sector named by the
    last slot.  [holding_sector] is the sector that holds the byte at
    [offset]; it is stated from this description and not from
    [ByteToSector]. *)
Fixpoint holding_sector {G : Geometry} (fuel : nat) (this : FileHeader)
    (d : Disk) (offset : Z) : outcome Z :=
  match fuel with
  | O => Diverge
  | S fuel' =>
      if (numSectors this <=? NumDirect - 1)
         || (offset <? (NumDirect - 1) * SectorSize)
      then load (dataSectors this) (Z.quot offset SectorSize)
      else
        s ← load (dataSectors this) (NumDirect - 1);
        child ← fetch_indirect this d s;
        holding_sector fuel' child d (offset - (NumDirect - 1) * SectorSize)
  end.

(** The number of nodes chained after [this]. *)
Fixpoint chain_links {G : Geometry} (fuel : nat) (this : FileHeader) (d : Disk)
  : outcome Z :=
  match fuel with
  | O => Diverge
  | S fuel' =>
      if numSectors this <=? NumDirect - 1 then Done 0
      else
        s ← load (dataSectors this) (NumDirect - 1);
        child ← fetch_indirect this d s;
        n ← chain_links fuel' child d;
        Done (1 + n)
  end.

(** ** Predicates on headers *)

(** The values of a C [int]. *)
Definition int32 (z : Z) : Prop := -2147483648 ≤ z ∧ z < 2147483648.

(** The fields of a header are [int]s. *)
Definition header_ints (h : FileHeader) : Prop :=
  int32 (numBytes h) ∧ int32 (numSectors h) ∧ Forall int32 (dataSectors h).

(** The array [dataSectors] of a header has [NumDirect] entries. *)
Definition header_wf {G : Geometry} (h : FileHeader) : Prop :=
  Z.of_nat (length (dataSectors h)) = NumDirect.

(** The last slot names the sector of the next node of the chain: the
    header stored there describes the rest of the region of [this]. *)
Definition last_slot_links {G : Geometry} (this : FileHeader) (d : Disk) : Prop :=
  ∃ s child,
    load (dataSectors this) (NumDirect - 1) = Done s
    ∧ fetch_indirect this d s = Done child
    ∧ numBytes child = numBytes this - (NumDirect - 1) * SectorSize
    ∧ numSectors child = numSectors this - (NumDirect - 1).

(** The last slot is as it was in [before]. *)
Definition last_slot_kept {G : Geometry} (before this : FileHeader) : Prop :=
  load (dataSectors this) (NumDirect - 1) = load (dataSectors before) (NumDirect - 1).

Definition last_slot_rule {G : Geometry} (before this : FileHeader) (d : Disk)
  : Prop :=
  (numSectors this ≤ NumDirect - 1 → last_slot_kept before this)
  ∧ (NumDirect - 1 < numSectors this → last_slot_links this d).

(** A node whose array has [NumDirect] entries, whose length is not
    negative, whose sector count is the one of its length, and whose
    children, down to [depth] of them, are objects that [indirect] points
    to and, once fetched from the sector of the last slot, each describe
    what is left of the region of their parent. *)
Fixpoint chain_ok {G : Geometry} (depth : nat) (this : FileHeader) (d : Disk)
  : bool :=
  (Z.of_nat (length (dataSectors this)) =? NumDirect)
  && ((0 <=? numBytes this)
      && (numSectors this =? divRoundUp (numBytes this) SectorSize))
  && ((numBytes this <=? (NumDirect - 1) * SectorSize)
      || match depth with
         | O => false
         | S depth' =>
             match load (dataSectors this) (NumDirect - 1) with
             | Done s =>
                 match fetch_indirect this d s with
                 | Done child =>
                     (numBytes child
                      =? numBytes this - (NumDirect - 1) * SectorSize)
                     && chain_ok depth' child d
                 | _ => false
                 end
             | _ => false
             end
         end).

(** The sectors that hold the headers of the nodes chained after [this]. *)
Fixpoint chain_headers {G : Geometry} (depth : nat) (this : FileHeader) (d : Disk)
  : list Z :=
  match depth with
  | O => []
  | S depth' =>
      if numBytes this <=? (NumDirect - 1) * SectorSize then []
      else match load (dataSectors this) (NumDirect - 1) with
           | Done s =>
               match fetch_indirect this d s with
               | Done child => s :: chain_headers depth' child d
               | _ => []
               end
           | _ => []
           end
  end.

(** The number of calls of [Find] that [Allocate(fileSize)] makes: one for
    each data sector and one for each chained header. *)
Fixpoint sectors_claimed {G : Geometry} (fuel : nat) (fileSize : Z) : Z :=
  match fuel with
  | O => 0
  | S fuel' =>
      if fileSize >? (NumDirect - 1) * SectorSize
      then (NumDirect - 1)
           + sectors_claimed fuel' (fileSize - (NumDirect - 1) * SectorSize) + 1
      else Z.max 0 (divRoundUp fileSize SectorSize)
  end.

(** [numSectors == ceil(numBytes / SectorSize)] *)
Definition sized {G : Geometry} (h : FileHeader) : Prop :=
  SectorSize * (numSectors h - 1) < numBytes h
  ∧ numBytes h ≤ SectorSize * numSectors h.

(** The calls that do not assign to the fields of [this]. *)
Definition leaves_header (c : call) : bool :=
  match c with
  | CallAllocate _ | CallExtend _ | CallFetchFrom _ => false
  | _ => true
  end.

(** The last slot holds data of the file: it names the sector in which
    [ByteToSector] finds the bytes of sector number [NumDirect-1] of the
    file. *)
Definition last_slot_is_data {G : Geometry} (fuel : nat) (this : FileHeader)
    (d : Disk) : Prop :=
  ByteToSector fuel this d ((NumDirect - 1) * SectorSize)
  = load (dataSectors this) (NumDirect - 1).

(** ** Worlds used in the examples *)

(** A free map of [n] sectors, all clear, and a blank disk. *)
Definition blank_world (n : nat) : World := mkWorld (replicate n false) ∅.

Section NachosStates.
Local Existing Instance nachos_geometry.

(** A file of 500 bytes allocated on a blank disk of 32 sectors. *)
Definition file_500 : FileHeader :=
  mkFileHeader 500 4 ([0; 1; 2; 3] ++ replicate 26 0) None.
Definition world_500 : World :=
  mkWorld (replicate 4 true ++ replicate 28 false) ∅.

(** A file of 3840 bytes, that is [NumDirect] sectors, allocated on a blank
    disk of 64 sectors: 29 direct sectors, the header of the child in
    sector 30 and the sector of the child in sector 29; the object of the
    child is the one that [Allocate] has created. *)
Definition tail_3840 : FileHeader :=
  mkFileHeader 128 1 (29 :: replicate 29 0) None.
Definition file_3840 : FileHeader :=
  mkFileHeader 3840 30 (seqZ 0 29 ++ [30]) (Some tail_3840).
Definition world_3840 : World :=
  mkWorld (replicate 31 true ++ replicate 33 false) (WriteBack tail_3840 ∅ 30).

(** A file of 128 bytes on a disk of 64 sectors. *)
Definition file_128 : FileHeader := mkFileHeader 128 1 (replicate 30 0) None.
Definition world_128 : World := mkWorld (true :: replicate 63 false) ∅.


End NachosStates.

(** ** Reading the output of [Print] *)

(** The byte that an item of the output shows, if it shows one, and
    whether an item ends a line. *)
Definition printed (o : output) : option Z :=
  match o with
  | OutChar c | OutHex c => Some c
  | _ => None
  end.

Definition ends_line (o : output) : bool :=
  match o with
  | OutNewline => true
  | _ => false
  end.

(** The file of 500 bytes extended to 1000 bytes. *)
Definition file_1000 : FileHeader :=
  mkFileHeader 1000 8 (seqZ 0 8 ++ replicate 22 0) None.
Definition world_1000 : World :=
  mkWorld (replicate 8 true ++ replicate 24 false) ∅.

(** Whether one of the chained headers that [Allocate(fileSize)] builds
    gets exactly [NumDirect] sectors. *)
Fixpoint full_node {G : Geometry} (fuel : nat) (fileSize : Z) : bool :=
  match fuel with
  | O => false
  | S fuel' =>
      (fileSize >? (NumDirect - 1) * SectorSize)
      && ((divRoundUp fileSize SectorSize =? NumDirect)
          || full_node fuel' (fileSize - (NumDirect - 1) * SectorSize))
  end.

(** A small disk geometry for examples with several chained headers:
    sectors of 32 bytes, headers of six slots, which fill a sector as the
    headers of the distribution do, and a [MaxFileSize] that admits files
    of more than [NumDirect] sectors. *)
Definition small_geometry : Geometry :=
  {| SectorSize := 32; NumDirect := 6; MaxFileSize := 1024 |}.


(** The sectors whose bytes [Print] shows, in the order in which it shows
    them: the direct slots of the header and then, for a header of more
    than [NumDirect-1] sectors, those of the header chained after it. *)
Fixpoint shown_blocks {G : Geometry} (depth : nat) (this : FileHeader)
    (d : Disk) : list Z :=
  match depth with
  | O => []
  | S depth' =>
      if numSectors this <=? NumDirect - 1
      then take (Z.to_nat (numSectors this)) (dataSectors this)
      else take (Z.to_nat (NumDirect - 1)) (dataSectors this)
           ++ match load (dataSectors this) (NumDirect - 1) with
              | Done s =>
                  match fetch_indirect this d s with
                  | Done child => shown_blocks depth' child d
                  | _ => []
                  end
              | _ => []
              end
  end.

(** * Properties *)

Ltac Zify.zify_post_hook ::= Z.to_euclidean_division_equations.

(** Case analysis on the comparison at the head of the goal. *)
Ltac case_ltb :=
  match goal with
  | |- context [?a <? ?b] => destruct (Z.ltb_spec a b)
  | |- context [?a <=? ?b] => destruct (Z.leb_spec a b)
  end.

(** ** Comparison with a size *)

Lemma gtu_cases a b :
  (gtu a b = true ∧ (a < 0 ∨ b < a)) ∨ (gtu a b = false ∧ 0 ≤ a ≤ b).
Proof. unfold gtu. lia. Qed.

Lemma gtu_nonneg a b : 0 ≤ a → gtu a b = (a >? b).
Proof. unfold gtu. lia. Qed.

(** Case analysis on the comparison with a size at the head of the goal. *)
Ltac case_gtu H :=
  match goal with
  | |- context [gtu ?a ?b] => destruct (gtu_cases a b) as [[-> H]|[-> H]]
  end.

(** ** Rounding up *)

Lemma divRoundUp_bounds n s :
  0 < s → s * (divRoundUp n s - 1) < n ∧ n ≤ s * divRoundUp n s.
Proof.
  intros Hs. unfold divRoundUp.
  destruct (0 <? Z.rem n s) eqn:E; [apply Z.ltb_lt in E | apply Z.ltb_ge in E]; lia.
Qed.

Lemma divRoundUp_unique n s c :
  0 < s → s * (c - 1) < n → n ≤ s * c → divRoundUp n s = c.
Proof.
  intros Hs Hlo Hhi. destruct (divRoundUp_bounds n s Hs) as [Hlo' Hhi']. nia.
Qed.

Lemma divRoundUp_sub n s m :
  0 < s → divRoundUp (n - m * s) s = divRoundUp n s - m.
Proof.
  intros Hs. destruct (divRoundUp_bounds n s Hs) as [Hlo Hhi].
  apply divRoundUp_unique; nia.
Qed.

Lemma divRoundUp_le n s m : 0 < s → divRoundUp n s ≤ m ↔ n ≤ m * s.
Proof.
  intros Hs. destruct (divRoundUp_bounds n s Hs) as [Hlo Hhi]. split; nia.
Qed.

Lemma divRoundUp_nonneg n s : 0 < s → 0 ≤ n → 0 ≤ divRoundUp n s.
Proof.
  intros Hs Hn. unfold divRoundUp. pose proof (Z.quot_pos n s).
  case_ltb; lia.
Qed.

Lemma divRoundUp_mono n n' s : 0 < s → n ≤ n' → divRoundUp n s ≤ divRoundUp n' s.
Proof.
  intros Hs Hle. destruct (divRoundUp_bounds n' s Hs) as [_ Hhi].
  apply divRoundUp_le; lia.
Qed.

(** ** The free map *)

Lemma NumClear_nonneg fm : 0 ≤ NumClear fm.
Proof. induction fm as [|[] fm IH]; simpl; lia. Qed.

Lemma first_clear_None fm : first_clear fm = None → NumClear fm = 0.
Proof.
  induction fm as [|[] fm IH]; simpl; intros Hf; try done.
  destruct (first_clear fm); [done | auto].
Qed.

Lemma first_clear_Some fm i :
  first_clear fm = Some i →
  fm !! i = Some false ∧ NumClear (<[i := true]> fm) = NumClear fm - 1.
Proof.
  revert i. induction fm as [|[] fm IH]; simpl; intros i Hf; try done.
  - destruct (first_clear fm) as [j|] eqn:E; [|done].
    injection Hf as <-. destruct (IH j eq_refl) as [H1 H2]. split; [done|].
    change (0 + NumClear (<[j:=true]> fm) = 0 + NumClear fm - 1). lia.
  - injection Hf as <-. simpl. split; [done | lia].
Qed.

Lemma Find_length fm : length (Find fm).2 = length fm.
Proof.
  unfold Find. destruct (first_clear fm); simpl; [apply length_insert | done].
Qed.

Lemma Find_NumClear fm :
  NumClear (Find fm).2 = Z.max 0 (NumClear fm - 1).
Proof.
  unfold Find. destruct (first_clear fm) as [i|] eqn:E; simpl.
  - apply first_clear_Some in E as [_ E]. pose proof (NumClear_nonneg (<[i:=true]> fm)). lia.
  - apply first_clear_None in E. lia.
Qed.

Lemma Find_range fm : -1 ≤ (Find fm).1 ∧ (Find fm).1 < Z.of_nat (length fm).
Proof.
  unfold Find. destruct (first_clear fm) as [i|] eqn:E; simpl.
  - apply first_clear_Some in E as [E _]. apply lookup_lt_Some in E. lia.
  - lia.
Qed.

Lemma Find_claims fm :
  0 < NumClear fm →
  0 ≤ (Find fm).1 ∧ Test fm (Find fm).1 = false ∧ Test (Find fm).2 (Find fm).1 = true.
Proof.
  intros Hpos. unfold Find. destruct (first_clear fm) as [i|] eqn:E; simpl.
  - apply first_clear_Some in E as [E _]. unfold Test.
    assert ((0 <=? Z.of_nat i) = true) as -> by (apply Z.leb_le; lia).
    rewrite Nat2Z.id, E. rewrite list_lookup_insert_eq by (by eapply lookup_lt_Some).
    split; [lia | done].
  - apply first_clear_None in E. lia.
Qed.

Lemma Find_keeps_marks fm s : Test fm s = true → Test (Find fm).2 s = true.
Proof.
  unfold Find, Test. destruct (first_clear fm) as [i|] eqn:E; simpl; [|done].
  destruct (0 <=? s); [|done].
  destruct (decide (i = Z.to_nat s)) as [->|Hne].
  - apply first_clear_Some in E as [E _]. rewrite E. done.
  - by rewrite list_lookup_insert_ne.
Qed.

(** ** The array of sector numbers *)

Lemma store_Done ds i s :
  0 ≤ i < Z.of_nat (length ds) → store ds i s = Done (<[Z.to_nat i := s]> ds).
Proof.
  intros [H1 H2]. unfold store.
  apply Z.leb_le in H1 as ->. apply Z.ltb_lt in H2 as ->. done.
Qed.

Lemma store_inv ds i s ds' :
  store ds i s = Done ds' →
  0 ≤ i < Z.of_nat (length ds) ∧ ds' = <[Z.to_nat i := s]> ds.
Proof.
  unfold store. destruct (0 <=? i) eqn:E1; [|done].
  destruct (i <? Z.of_nat (length ds)) eqn:E2; [|done].
  simpl. intros [= <-]. split; [lia | done].
Qed.

Lemma load_Done ds i s :
  load ds i = Done s ↔ 0 ≤ i ∧ ds !! Z.to_nat i = Some s.
Proof.
  unfold load. destruct (0 <=? i) eqn:E.
  - destruct (ds !! Z.to_nat i) as [x|]; split.
    + intros [= ->]. split; [lia | done].
    + intros [_ [= ->]]. done.
    + done.
    + intros [_ ?]. done.
  - split; [done | lia].
Qed.

(** The loop that claims sectors. *)
Lemma find_loop_spec n : ∀ i ds fm,
  0 ≤ i → i + Z.of_nat n ≤ Z.of_nat (length ds) →
  ∃ ds' fm',
    find_loop n i ds fm = Done (ds', fm')
    ∧ length ds' = length ds
    ∧ length fm' = length fm
    ∧ NumClear fm' = Z.max 0 (NumClear fm - Z.of_nat n)
    ∧ (∀ j, (Z.of_nat j < i ∨ i + Z.of_nat n ≤ Z.of_nat j) → ds' !! j = ds !! j)
    ∧ (∀ s, Test fm s = true → Test fm' s = true).
Proof.
  induction n as [|n IH]; intros i ds fm Hi Hlen; simpl.
  - exists ds, fm. repeat split; auto. pose proof (NumClear_nonneg fm). lia.
  - destruct (Find fm) as [s fm1] eqn:EF.
    rewrite store_Done by lia. simpl.
    destruct (IH (i + 1) (<[Z.to_nat i := s]> ds) fm1) as (ds' & fm' & -> & Hl & Hf & Hn & Hd & Ht).
    { lia. } { rewrite length_insert. lia. }
    exists ds', fm'.
    pose proof (Find_length fm) as HFl. pose proof (Find_NumClear fm) as HFn.
    pose proof (Find_keeps_marks fm) as HFm. rewrite EF in HFl, HFn, HFm. simpl in *.
    repeat split.
    + by rewrite Hl, length_insert.
    + congruence.
    + lia.
    + intros j Hj. rewrite Hd by lia. apply list_lookup_insert_ne. lia.
    + auto.
Qed.

Section Operations.
Context {G : Geometry} (HG : geometry_ok G) (Hfit : header_fits G).

(** ** Allocate *)

Lemma newFileHeader_wf : 0 ≤ NumDirect → header_wf newFileHeader.
Proof. intros HK. unfold header_wf. simpl. rewrite length_replicate. lia. Qed.

(** What a call of [Allocate] does, for any header and any size, once the
    recursion is given enough fuel. *)
Lemma Allocate_spec (fuel : nat) :
  ∀ this w n,
    header_wf this → (Z.to_nat n < fuel)%nat →
    ∃ ok h' w',
      Allocate fuel this w n = Done (ok, h', w')
      ∧ header_wf h'
      ∧ length (freeMap w') = length (freeMap w)
      ∧ (ok = false ↔ n < 0 ∨ MaxFileSize < n
                      ∨ NumClear (freeMap w) < divRoundUp n SectorSize)
      ∧ (ok = false → w' = w)
      ∧ (n < 0 ∨ MaxFileSize < n → h' = this)
      ∧ (0 ≤ n ≤ MaxFileSize →
           numBytes h' = n ∧ numSectors h' = divRoundUp n SectorSize)
      ∧ (∀ s, Test (freeMap w) s = true → Test (freeMap w') s = true).
Proof.
  destruct HG as [HS HK].
  induction fuel as [|fuel IH]; intros this w n Hwf Hfuel; [lia|].
  cbn [Allocate numSectors with_size dataSectors].
  unfold header_wf in Hwf |- *.
  case_gtu Hmax.
  { exists false, this, w. repeat split; auto; try lia. }
  case_ltb.
  { eexists false, _, w. repeat split; auto; try lia. }
  pose proof (divRoundUp_le n SectorSize (NumDirect - 1) HS) as Hle.
  case_gtu Hdirect.
  - (* the file needs a child node *)
    assert (NumDirect - 1 < divRoundUp n SectorSize) as Hbig by lia.
    destruct (find_loop_spec (Z.to_nat (NumDirect - 1)) 0 (dataSectors this)
                (freeMap w))
      as (ds & fm1 & -> & Hl & Hf & Hn & Hd & Ht); [lia | lia |].
    cbn [mbind outcome_bind].
    destruct (IH newFileHeader (mkWorld fm1 (synchDisk w))
                (n - (NumDirect - 1) * SectorSize))
      as (ok & child & w2 & -> & Hcwf & Hcl & Hcok & Hcw & _ & Hcs & Hct).
    { apply newFileHeader_wf. lia. }
    { nia. }
    cbn [mbind outcome_bind freeMap synchDisk] in *.
    rewrite divRoundUp_sub in Hcok by done.
    destruct ok.
    2:{ exfalso. destruct Hcok as [Hc _]. destruct (Hc eq_refl) as [?|[?|?]]; nia. }
    destruct (Find (freeMap w2)) as [s fm3] eqn:EF.
    rewrite store_Done by lia. cbn [mbind outcome_bind].
    pose proof (Find_length (freeMap w2)) as HFl.
    pose proof (Find_keeps_marks (freeMap w2)) as HFm.
    rewrite EF in HFl, HFm. cbn [fst snd] in *.
    eexists true, _, _. split; [reflexivity|].
    cbn [numBytes numSectors dataSectors freeMap synchDisk with_sectors
         with_size with_indirect].
    repeat split; try done; try lia.
    + rewrite length_insert. lia.
    + auto.
  - (* the sectors of the file are all direct *)
    pose proof (divRoundUp_bounds n SectorSize HS) as [Hlo Hhi].
    destruct (find_loop_spec (Z.to_nat (divRoundUp n SectorSize)) 0
                (dataSectors this) (freeMap w))
      as (ds & fm1 & -> & Hl & Hf & Hn & Hd & Ht); [lia | lia |].
    cbn [mbind outcome_bind]. eexists true, _, _. split; [reflexivity|].
    cbn [numBytes numSectors dataSectors freeMap synchDisk with_sectors
         with_size].
    repeat split; try done; try lia.
Qed.

(** ** Headers on disk *)

Lemma bytes_int_int_bytes z : int32 z → bytes_int (int_bytes z) = z.
Proof.
  intros [Hlo Hhi]. unfold bytes_int, int_bytes, byte_at. simpl nth.
  case_ltb; lia.
Qed.

Lemma bytes_int_int32 bs : int32 (bytes_int bs).
Proof.
  unfold bytes_int, byte_at, int32.
  generalize (nth 0 bs 0) (nth 1 bs 0) (nth 2 bs 0) (nth 3 bs 0). intros a b c d.
  case_ltb; lia.
Qed.

Lemma int_bytes_length z : length (int_bytes z) = 4%nat.
Proof. done. Qed.

Lemma flat_map_int_bytes_length l :
  length (flat_map int_bytes l) = (4 * length l)%nat.
Proof. induction l as [|a l IH]; simpl; [done | rewrite IH; lia]. Qed.

Lemma read_int_flat_map l : ∀ rest i z,
  l !! i = Some z → int32 z → read_int (flat_map int_bytes l ++ rest) i = z.
Proof.
  induction l as [|a l IH]; intros rest i z Hl Hz; [done|].
  destruct i as [|i].
  - injection Hl as ->. unfold read_int. simpl. by apply bytes_int_int_bytes.
  - unfold read_int. replace (4 * S i)%nat with (4 + 4 * i)%nat by lia.
    simpl flat_map. change (int_bytes a) with
      [a mod 256; (a / 256) mod 256; (a / 65536) mod 256; (a / 16777216) mod 256].
    simpl app. simpl drop. apply (IH rest i z); done.
Qed.

Lemma sector_bytes_length bs :
  length (sector_bytes bs) = Z.to_nat SectorSize.
Proof.
  unfold sector_bytes. rewrite length_take, length_app, length_replicate. lia.
Qed.

Lemma sector_bytes_idemp bs :
  sector_bytes (sector_bytes bs) = sector_bytes bs.
Proof.
  unfold sector_bytes at 1. rewrite take_app_le by (rewrite sector_bytes_length; lia).
  apply take_ge. rewrite sector_bytes_length. lia.
Qed.

Lemma sector_bytes_prefix bs :
  (length bs ≤ Z.to_nat SectorSize)%nat → ∃ rest, sector_bytes bs = bs ++ rest.
Proof.
  intros Hle. unfold sector_bytes. rewrite take_app_ge by done. eauto.
Qed.

Lemma ReadSector_WriteSector d s data :
  ReadSector (WriteSector d s data) s = sector_bytes data.
Proof.
  unfold ReadSector, WriteSector. rewrite lookup_insert_eq. simpl.
  apply sector_bytes_idemp.
Qed.

Lemma ReadSector_WriteSector_ne d s s' data :
  s ≠ s' → ReadSector (WriteSector d s data) s' = ReadSector d s'.
Proof.
  intros Hne. unfold ReadSector, WriteSector. by rewrite lookup_insert_ne.
Qed.

(** Decoding the bytes of a header gives its counters and its array back,
    whatever follows them in memory. *)
Lemma header_of_bytes_header_bytes h pointer rest :
  header_wf h → header_ints h →
  header_of_bytes pointer (header_bytes h ++ rest)
  = mkFileHeader (numBytes h) (numSectors h) (dataSectors h) pointer.
Proof.
  intros Hwf (Hb & Hs & Hd). unfold header_of_bytes, header_bytes.
  destruct h as [nb ns ds p]. cbn [numBytes numSectors dataSectors] in *.
  f_equal.
  - by apply (read_int_flat_map (nb :: ns :: ds) rest 0%nat nb).
  - by apply (read_int_flat_map (nb :: ns :: ds) rest 1%nat ns).
  - unfold header_wf in Hwf. simpl in Hwf. apply list_eq. intros i.
    rewrite list_lookup_fmap.
    destruct (ds !! i) as [z|] eqn:E.
    + assert (i < length ds)%nat as Hlt by (by eapply lookup_lt_Some).
      rewrite lookup_seq_lt by lia. simpl.
      f_equal. apply (read_int_flat_map (nb :: ns :: ds) rest (S (S i)) z); [done|].
      rewrite Forall_forall in Hd. apply Hd. by eapply list_elem_of_lookup_2.
    + apply lookup_ge_None in E. rewrite lookup_seq_ge by lia. done.
Qed.

(** An object that fetches a header written to a sector has the counters
    and the array of that header, and the pointer it had. *)
Lemma FetchFrom_WriteBack h fresh d s :
  header_wf h → header_ints h →
  FetchFrom fresh (WriteBack h d s) s
  = mkFileHeader (numBytes h) (numSectors h) (dataSectors h) (indirect fresh).
Proof.
  intros Hwf Hint. unfold FetchFrom, WriteBack.
  rewrite ReadSector_WriteSector.
  destruct (sector_bytes_prefix (header_bytes h)) as [rest ->].
  - unfold header_bytes. rewrite flat_map_int_bytes_length. simpl.
    pose proof Hfit as Hroom. unfold header_wf in Hwf.
    unfold header_fits in Hroom. lia.
  - rewrite <- app_assoc. by apply header_of_bytes_header_bytes.
Qed.

(** The object that was written fetches itself. *)
Lemma FetchFrom_WriteBack_self h d s :
  header_wf h → header_ints h → FetchFrom h (WriteBack h d s) s = h.
Proof.
  intros Hwf Hint. rewrite FetchFrom_WriteBack by done. by destruct h.
Qed.

Lemma FetchFrom_indirect this d s : indirect (FetchFrom this d s) = indirect this.
Proof. done. Qed.

Lemma FetchFrom_WriteBack_ne h fresh d s s' :
  s ≠ s' → FetchFrom fresh (WriteBack h d s) s' = FetchFrom fresh d s'.
Proof.
  intros Hne. unfold FetchFrom, WriteBack. by rewrite ReadSector_WriteSector_ne.
Qed.

(** ** What the loops and the calls leave behind *)

Lemma Find_int32 fm :
  Z.of_nat (length fm) ≤ 2147483648 → int32 (Find fm).1.
Proof. intros Hlen. pose proof (Find_range fm). unfold int32. lia. Qed.

Lemma find_loop_inv n : ∀ i ds fm ds' fm',
  find_loop n i ds fm = Done (ds', fm') →
  length ds' = length ds
  ∧ length fm' = length fm
  ∧ (Forall int32 ds → Z.of_nat (length fm) ≤ 2147483648 → Forall int32 ds')
  ∧ NumClear fm' = Z.max 0 (NumClear fm - Z.of_nat n)
  ∧ (n ≠ 0%nat → 0 ≤ i ∧ i + Z.of_nat n ≤ Z.of_nat (length ds))
  ∧ (∀ j, (Z.of_nat j < i ∨ i + Z.of_nat n ≤ Z.of_nat j) → ds' !! j = ds !! j)
  ∧ (∀ s, Test fm s = true → Test fm' s = true).
Proof.
  induction n as [|n IH]; intros i ds fm ds' fm'; simpl.
  - intros [= <- <-]. pose proof (NumClear_nonneg fm). repeat split; auto; lia.
  - destruct (Find fm) as [s fm1] eqn:EF.
    destruct (store ds i s) as [ds1| |] eqn:ES; simpl; try done.
    intros Hloop. apply IH in Hloop as (Hl & Hf & Hint & Hnc & Hrange & Hframe & Hmarks).
    apply store_inv in ES as [Hi ->]. rewrite length_insert in Hl, Hrange.
    pose proof (Find_length fm) as HFl. pose proof (Find_int32 fm) as HFi.
    pose proof (Find_NumClear fm) as HFn. pose proof (Find_keeps_marks fm) as HFm.
    rewrite EF in HFl, HFi, HFn, HFm. simpl in *.
    assert (i + Z.of_nat (S n) ≤ Z.of_nat (length ds)) as Hhi.
    { destruct n; [lia | destruct Hrange; [done | lia]]. }
    repeat split; auto; try congruence; try lia.
    + intros Hds Hlen. apply Hint; [|lia]. apply Forall_insert; auto.
    + intros j Hj. rewrite Hframe by lia. apply list_lookup_insert_ne. lia.
Qed.

(** The free map keeps its size, and the entries of [dataSectors] stay
    [int]s, through a call of [Allocate]. *)
Lemma Allocate_inv (fuel : nat) : ∀ this w n ok h' w',
  Allocate fuel this w n = Done (ok, h', w') →
  length (dataSectors h') = length (dataSectors this)
  ∧ length (freeMap w') = length (freeMap w)
  ∧ (Forall int32 (dataSectors this) → Z.of_nat (length (freeMap w)) ≤ 2147483648 →
     Forall int32 (dataSectors h')).
Proof.
  induction fuel as [|fuel IH]; intros this w n ok h' w'; simpl; [done|].
  destruct (gtu n MaxFileSize); [intros [= <- <- <-]; auto|].
  destruct (NumClear (freeMap w) <? divRoundUp n SectorSize); [intros [= <- <- <-]; auto|].
  destruct (gtu n ((NumDirect - 1) * SectorSize)).
  - destruct (find_loop _ 0 (dataSectors this) (freeMap w)) as [[ds fm1]| |] eqn:EL;
      simpl; try done.
    apply find_loop_inv in EL as (Hl & Hf & Hint & _).
    destruct (Allocate fuel newFileHeader _ _) as [[[ok1 child] w2]| |] eqn:EA;
      simpl; try done.
    apply IH in EA as (_ & Hf2 & _). simpl in Hf2.
    destruct ok1.
    + destruct (Find (freeMap w2)) as [s fm3] eqn:EF.
      destruct (store ds (NumDirect - 1) s) as [ds1| |] eqn:ES; simpl; try done.
      intros [= <- <- <-]. simpl. apply store_inv in ES as [Hi ->].
      pose proof (Find_length (freeMap w2)) as HFl. pose proof (Find_int32 (freeMap w2)) as HFi.
      rewrite EF in HFl, HFi. simpl in *.
      rewrite length_insert. repeat split; [done | congruence |].
      intros Hds Hlen. apply Forall_insert; [auto | apply HFi; lia].
    + intros [= <- <- <-]. simpl. repeat split; [done | congruence | auto].
  - destruct (find_loop _ 0 (dataSectors this) (freeMap w)) as [[ds fm1]| |] eqn:EL;
      simpl; try done.
    apply find_loop_inv in EL as (Hl & Hf & Hint & _).
    intros [= <- <- <-]. simpl. auto.
Qed.

Lemma Allocate_fuel_mono (fuel : nat) : ∀ fuel' this w n r,
  Allocate fuel this w n = Done r → (fuel ≤ fuel')%nat →
  Allocate fuel' this w n = Done r.
Proof.
  induction fuel as [|fuel IH]; intros fuel' this w n r; simpl; [done|].
  intros Hrun Hle. destruct fuel' as [|fuel']; [lia|]. simpl.
  destruct (gtu n MaxFileSize); [done|].
  destruct (NumClear (freeMap w) <? divRoundUp n SectorSize); [done|].
  destruct (gtu n ((NumDirect - 1) * SectorSize)); [|done].
  destruct (find_loop _ 0 (dataSectors this) (freeMap w)) as [[ds fm1]| |];
    simpl in *; try done.
  destruct (Allocate fuel newFileHeader _ _) as [r1| |] eqn:EA; simpl in Hrun; try done.
  rewrite (IH fuel' _ _ _ r1 EA) by lia. done.
Qed.

(** ** The last slot *)

Lemma load_insert ds i s :
  0 ≤ i < Z.of_nat (length ds) → load (<[Z.to_nat i := s]> ds) i = Done s.
Proof.
  intros Hi. apply load_Done. split; [lia|]. apply list_lookup_insert_eq. lia.
Qed.

Lemma load_frame ds ds' i :
  0 ≤ i → ds' !! Z.to_nat i = ds !! Z.to_nat i → load ds' i = load ds i.
Proof. intros Hi Heq. unfold load. by rewrite Heq. Qed.

Lemma newFileHeader_ints : header_ints newFileHeader.
Proof.
  unfold header_ints, int32. simpl. repeat split; try lia.
  apply Forall_replicate. lia.
Qed.

Lemma divRoundUp_int32 n s : 0 < s → int32 n → int32 (divRoundUp n s).
Proof.
  intros Hs [Hlo Hhi]. destruct (divRoundUp_bounds n s Hs). unfold int32. nia.
Qed.

Lemma Allocate_last_slot (fuel : nat) (this : FileHeader) (w : World) (n : Z) :
  header_wf this → (Z.to_nat n < fuel)%nat → int32 n →
  Z.of_nat (length (freeMap w)) ≤ 2147483648 →
  ∃ ok h' w',
    Allocate fuel this w n = Done (ok, h', w')
    ∧ (ok = true → last_slot_rule this h' (synchDisk w')).
Proof.
  intros Hwf Hfuel Hn Hlen. pose proof HG as [HS HK].
  destruct fuel as [|fuel]; [lia|].
  cbn [Allocate numSectors with_size dataSectors]. unfold header_wf in Hwf.
  case_gtu Hmax. { by eexists false, _, _. }
  case_ltb. { by eexists false, _, _. }
  pose proof (divRoundUp_le n SectorSize (NumDirect - 1) HS) as Hle.
  case_gtu Hdirect.
  - destruct (find_loop_spec (Z.to_nat (NumDirect - 1)) 0 (dataSectors this)
                (freeMap w))
      as (ds & fm1 & EL & Hl & Hf & Hnc & Hd & Ht); [lia | lia |].
    rewrite EL. cbn [mbind outcome_bind].
    destruct (Allocate_spec fuel newFileHeader (mkWorld fm1 (synchDisk w))
                (n - (NumDirect - 1) * SectorSize))
      as (ok & child & w2 & EA & Hcwf & Hcl & _ & _ & _ & Hcs & _).
    { apply newFileHeader_wf. lia. } { nia. }
    rewrite EA. cbn [mbind outcome_bind].
    destruct ok; [|by eexists false, _, _].
    destruct (Find (freeMap w2)) as [s fm3] eqn:EF.
    rewrite store_Done by lia. cbn [mbind outcome_bind].
    eexists true, _, _. split; [reflexivity|]. intros _.
    split; cbn [numBytes numSectors dataSectors synchDisk with_sectors
                with_size with_indirect]; [lia|].
    intros _. exists s, child. unfold fetch_indirect.
    cbn [dataSectors numBytes numSectors indirect with_sectors with_size
         with_indirect].
    rewrite load_insert by lia. split; [done|].
    destruct Hcs as [Hcb Hcn]; [lia|].
    assert (header_ints child) as Hci.
    { apply Allocate_inv in EA as (_ & _ & Hints). simpl in Hints.
      pose proof newFileHeader_ints as (_ & _ & Hnew).
      unfold header_ints. rewrite Hcb, Hcn. unfold int32 in Hn |- *.
      split; [nia|]. split; [|apply Hints; [done | lia]].
      apply divRoundUp_int32; [done|]. unfold int32; nia. }
    rewrite FetchFrom_WriteBack_self by done. split; [done|].
    rewrite divRoundUp_sub in Hcn by done. lia.
  - pose proof (divRoundUp_bounds n SectorSize HS) as [Hlo Hhi].
    destruct (find_loop_spec (Z.to_nat (divRoundUp n SectorSize)) 0
                (dataSectors this) (freeMap w))
      as (ds & fm1 & -> & Hl & Hf & Hnc & Hd & Ht); [lia | lia |].
    cbn [mbind outcome_bind]. eexists true, _, _. split; [reflexivity|].
    intros _.
    split; cbn [numBytes numSectors dataSectors synchDisk with_sectors
                with_size]; [|lia].
    intros _. unfold last_slot_kept.
    cbn [dataSectors with_sectors with_size]. apply load_frame; [lia|].
    apply Hd. lia.
Qed.

(** ** Extend *)

(** [Allocate_spec] for a call that is known to return. *)
Lemma Allocate_Done_spec fuel this w n ok h' w' :
  header_wf this →
  Allocate fuel this w n = Done (ok, h', w') →
  (ok = false ↔ n < 0 ∨ MaxFileSize < n
                ∨ NumClear (freeMap w) < divRoundUp n SectorSize)
  ∧ (ok = false → w' = w)
  ∧ (n < 0 ∨ MaxFileSize < n → h' = this)
  ∧ (0 ≤ n ≤ MaxFileSize →
     numBytes h' = n ∧ numSectors h' = divRoundUp n SectorSize)
  ∧ (∀ s, Test (freeMap w) s = true → Test (freeMap w') s = true).
Proof.
  intros Hwf Hrun.
  destruct (Allocate_spec (fuel `max` S (Z.to_nat n)) this w n Hwf)
    as (ok1 & h1 & w1 & Hrun1 & _ & _ & H); [lia|].
  rewrite (Allocate_fuel_mono fuel _ this w n _ Hrun) in Hrun1 by lia.
  injection Hrun1 as <- <- <-. exact H.
Qed.

Lemma FetchFrom_wf fresh d s :
  0 ≤ NumDirect → header_wf (FetchFrom fresh d s).
Proof.
  intros HK. unfold header_wf, FetchFrom, header_of_bytes. simpl.
  rewrite length_fmap, length_seq. lia.
Qed.

Lemma FetchFrom_ints fresh d s : header_ints (FetchFrom fresh d s).
Proof.
  unfold header_ints, FetchFrom, header_of_bytes, read_int. simpl.
  repeat split; try apply bytes_int_int32.
  apply Forall_fmap, Forall_forall. intros i _. apply bytes_int_int32.
Qed.

(** What a call of [Extend] that returns leaves behind. *)
Lemma Extend_inv (fuel : nat) : ∀ this w n ok h' w',
  Extend fuel this w n = Done (ok, h', w') →
  length (dataSectors h') = length (dataSectors this)
  ∧ length (freeMap w') = length (freeMap w)
  ∧ (Forall int32 (dataSectors this) → Z.of_nat (length (freeMap w)) ≤ 2147483648 →
     Forall int32 (dataSectors h'))
  ∧ (ok = true → numBytes h' = n ∧ numSectors h' = divRoundUp n SectorSize)
  ∧ (ok = false → stored h' = stored this).
Proof.
  induction fuel as [|fuel IH]; intros this w n ok h' w'; simpl; [done|].
  destruct (gtu (divRoundUp n SectorSize) MaxFileSize); [intros [= <- <- <-]; by auto|].
  destruct (NumClear (freeMap w) <? divRoundUp n SectorSize); [intros [= <- <- <-]; by auto|].
  destruct (gtu n ((NumDirect - 1) * SectorSize)).
  - destruct (numBytes this <=? (NumDirect - 1) * SectorSize).
    + destruct (find_loop _ _ (dataSectors this) (freeMap w)) as [[ds fm1]| |] eqn:EL;
        simpl; try done.
      apply find_loop_inv in EL as (Hl & Hf & Hint & _).
      destruct (Allocate fuel newFileHeader _ _) as [[[ok1 child] w2]| |] eqn:EA;
        simpl; try done.
      apply Allocate_inv in EA as (_ & Hf2 & _). simpl in Hf2.
      destruct (Find (freeMap w2)) as [s fm3] eqn:EF.
      destruct (store ds (NumDirect - 1) s) as [ds1| |] eqn:ES; simpl; try done.
      intros [= <- <- <-]. simpl. apply store_inv in ES as [Hi ->].
      pose proof (Find_length (freeMap w2)) as HFl.
      pose proof (Find_int32 (freeMap w2)) as HFi.
      rewrite EF in HFl, HFi. simpl in *.
      rewrite length_insert. repeat split; [done | congruence | | done].
      intros Hds Hlen. apply Forall_insert; [auto | apply HFi; lia].
    + destruct (load (dataSectors this) (NumDirect - 1)) as [s| |]; simpl; try done.
      destruct (fetch_indirect this (synchDisk w) s) as [child0| |]; simpl;
        try done.
      destruct (Extend fuel _ w _) as [[[ok1 child] w1]| |] eqn:EE; simpl; try done.
      apply IH in EE as (_ & Hf1 & _).
      destruct ok1; intros [= <- <- <-]; simpl; by auto.
  - destruct (find_loop _ _ (dataSectors this) (freeMap w)) as [[ds fm1]| |] eqn:EL;
      simpl; try done.
    apply find_loop_inv in EL as (Hl & Hf & Hint & _).
    intros [= <- <- <-]. simpl. by auto.
Qed.

Lemma fetch_indirect_Done this d s child :
  fetch_indirect this d s = Done child →
  ∃ c, indirect this = Some c ∧ child = FetchFrom c d s.
Proof.
  unfold fetch_indirect. destruct (indirect this) as [c|]; [|done].
  intros [= <-]. by exists c.
Qed.

Lemma Extend_last_slot (fuel : nat) (this : FileHeader) (w : World) (n : Z) h' w' :
  header_wf this → int32 n → 0 ≤ n → n ≤ MaxFileSize →
  Z.of_nat (length (freeMap w)) ≤ 2147483648 →
  Extend fuel this w n = Done (true, h', w') →
  last_slot_rule this h' (synchDisk w').
Proof.
  intros Hwf Hn Hn0 Hmax Hlen. pose proof HG as [HS HK]. unfold header_wf in Hwf.
  destruct fuel as [|fuel]; simpl; [done|].
  case_gtu Hceil; [done|]. case_ltb; [done|].
  pose proof (divRoundUp_le n SectorSize (NumDirect - 1) HS) as Hle.
  case_gtu Hdirect.
  - assert (∀ (child : FileHeader) s ds d,
      Z.of_nat (length ds) = NumDirect → header_wf child → header_ints child →
      numBytes child = n - (NumDirect - 1) * SectorSize →
      numSectors child = divRoundUp (n - (NumDirect - 1) * SectorSize) SectorSize →
      load ds (NumDirect - 1) = Done s →
      last_slot_rule this
        (mkFileHeader n (divRoundUp n SectorSize) ds (Some child))
        (WriteBack child d s)) as Hlink.
    { intros child s ds d Hds Hcwf Hci Hcb Hcn Hs. split; [simpl; lia|].
      intros _. exists s, child. unfold fetch_indirect.
      cbn [dataSectors numBytes numSectors indirect]. split; [done|].
      rewrite FetchFrom_WriteBack_self by done. split; [done|].
      rewrite divRoundUp_sub in Hcn by done. lia. }
    case_ltb.
    + (* the node gets its first child *)
      destruct (find_loop _ _ (dataSectors this) (freeMap w)) as [[ds fm1]| |] eqn:EL;
        simpl; try done.
      apply find_loop_inv in EL as (Hl & Hf & _ & Hnc & Hrange & _).
      destruct (Allocate fuel newFileHeader _ _) as [[[ok1 child] w2]| |] eqn:EA;
        simpl; try done.
      destruct (Find (freeMap w2)) as [s fm3] eqn:EF.
      destruct (store ds (NumDirect - 1) s) as [ds1| |] eqn:ES; simpl; try done.
      intros [= <- <-]. apply store_inv in ES as [Hi ->].
      pose proof (Allocate_inv _ _ _ _ _ _ _ EA) as (Hcl & _ & Hints).
      apply Allocate_Done_spec in EA as (Hok & _ & _ & Hcs & _);
        [|apply newFileHeader_wf; lia].
      simpl in *. rewrite divRoundUp_sub in Hok by done.
      destruct Hcs as [Hcb Hcn]; [nia|].
      assert (ok1 = true) as ->.
      { destruct ok1; [done|]. exfalso. destruct Hok as [Hok _].
        destruct (Hok eq_refl) as [?|[?|?]]; [nia|nia|].
        destruct (Z.to_nat (NumDirect - 1 - numSectors this)) eqn:En; [lia|].
        destruct Hrange; [done|]. lia. }
      apply Hlink; try done.
      * rewrite length_insert. lia.
      * unfold header_wf. rewrite Hcl. simpl. rewrite length_replicate. lia.
      * pose proof newFileHeader_ints as (_ & _ & Hnew).
        unfold header_ints. rewrite Hcb, Hcn. unfold int32 in Hn |- *.
        split; [nia|]. split; [|apply Hints; [done | lia]].
        apply divRoundUp_int32; [done|]. unfold int32; nia.
      * apply load_insert. lia.
    + (* the child of the node grows *)
      destruct (load (dataSectors this) (NumDirect - 1)) as [s| |] eqn:ES; simpl; try done.
      destruct (fetch_indirect this (synchDisk w) s) as [child0| |] eqn:EF0;
        simpl; try done.
      apply fetch_indirect_Done in EF0 as (c & _ & ->).
      destruct (Extend fuel _ w _) as [[[ok1 child] w1]| |] eqn:EE; simpl; try done.
      destruct ok1; [|done]. intros [= <- <-].
      apply Extend_inv in EE as (Hcl & Hfl & Hints & Hcs & _).
      destruct Hcs as [Hcb Hcn]; [done|].
      pose proof (FetchFrom_wf c (synchDisk w) s) as Hfwf.
      pose proof (FetchFrom_ints c (synchDisk w) s) as (_ & _ & Hfi).
      apply Hlink; try done.
      * unfold header_wf in *. rewrite Hcl. apply Hfwf. lia.
      * unfold header_ints. rewrite Hcb, Hcn. unfold int32 in Hn |- *.
        split; [nia|]. split; [|apply Hints; [done | lia]].
        apply divRoundUp_int32; [done|]. unfold int32; nia.
  - (* the sectors of the file stay direct *)
    destruct (find_loop _ _ (dataSectors this) (freeMap w)) as [[ds fm1]| |] eqn:EL;
      simpl; try done.
    apply find_loop_inv in EL as (Hl & Hf & _ & Hnc & Hrange & Hframe & _).
    intros [= <- <-]. split; simpl; [|lia].
    intros _. unfold last_slot_kept. simpl. apply load_frame; [lia|].
    apply Hframe.
    destruct (Z.to_nat (divRoundUp n SectorSize - numSectors this)) eqn:En; [lia|].
    destruct Hrange; [done|]. lia.
Qed.

(** ** Shrinking through Extend *)

Lemma chain_ok_head depth this d :
  chain_ok depth this d = true →
  header_wf this ∧ numSectors this = divRoundUp (numBytes this) SectorSize.
Proof.
  destruct depth; simpl; intros H;
    apply andb_prop in H as [H _]; apply andb_prop in H as [H1 H2];
    apply andb_prop in H2 as [_ H2];
    apply Z.eqb_eq in H1, H2; done.
Qed.

Lemma chain_ok_nonneg depth this d :
  chain_ok depth this d = true → 0 ≤ numBytes this.
Proof.
  destruct depth; simpl; intros H;
    apply andb_prop in H as [H _]; apply andb_prop in H as [_ H];
    apply andb_prop in H as [H _]; by apply Z.leb_le.
Qed.

Lemma chain_ok_child depth this d :
  chain_ok depth this d = true →
  (NumDirect - 1) * SectorSize < numBytes this →
  ∃ depth' s child,
    depth = S depth'
    ∧ load (dataSectors this) (NumDirect - 1) = Done s
    ∧ fetch_indirect this d s = Done child
    ∧ numBytes child = numBytes this - (NumDirect - 1) * SectorSize
    ∧ chain_ok depth' child d = true.
Proof.
  intros H Hbig. destruct depth as [|depth']; simpl in H;
    apply andb_prop in H as [_ H]; apply orb_prop in H as [H|H];
    try (apply Z.leb_le in H; lia); try done.
  destruct (load (dataSectors this) (NumDirect - 1)) as [s| |]; try done.
  destruct (fetch_indirect this d s) as [child| |] eqn:EF; try done.
  apply andb_prop in H as [H1 H2]. apply Z.eqb_eq in H1.
  exists depth', s, child. repeat split; done.
Qed.

Lemma Extend_shrinks_chain (depth : nat) :
  ∀ fuel this w n,
    chain_ok depth this (synchDisk w) = true → (depth < fuel)%nat →
    0 ≤ n → n < numBytes this →
    divRoundUp n SectorSize ≤ MaxFileSize →
    divRoundUp n SectorSize ≤ NumClear (freeMap w) →
    ∃ h' d',
      Extend fuel this w n = Done (true, h', mkWorld (freeMap w) d')
      ∧ stored h' = (n, divRoundUp n SectorSize, dataSectors this).
Proof.
  pose proof HG as [HS HK].
  induction depth as [|depth IH];
    intros fuel this w n Hok Hfuel Hn0 Hlt Hmax Hclear;
    (destruct fuel as [|fuel]; [lia|]);
    pose proof (chain_ok_head _ _ _ Hok) as [Hwf Hsz];
    pose proof (divRoundUp_mono n (numBytes this) SectorSize HS) as Hmono;
    pose proof (divRoundUp_bounds n SectorSize HS) as Hbounds;
    cbn [Extend];
    (case_gtu Hceil; [nia|]); (case_ltb; [lia|]); case_gtu Hdirect.
  - apply chain_ok_child in Hok as (? & ? & ? & ? & _); [done | lia].
  - replace (Z.to_nat (divRoundUp n SectorSize - numSectors this)) with 0%nat by lia.
    cbn. by eexists _, (synchDisk w).
  - case_ltb; [lia|].
    apply chain_ok_child in Hok
      as (depth' & s & child & [= <-] & Hload & Hfetch & Hcb & Hcok); [|lia].
    rewrite Hload. cbn [mbind outcome_bind].
    rewrite Hfetch. cbn [mbind outcome_bind].
    destruct (IH fuel child w (n - (NumDirect - 1) * SectorSize))
      as (child' & d' & -> & _); try done; try lia.
    { rewrite divRoundUp_sub by done. lia. }
    { rewrite divRoundUp_sub by done. lia. }
    cbn. by eexists _, _.
  - replace (Z.to_nat (divRoundUp n SectorSize - numSectors this)) with 0%nat by lia.
    cbn. by eexists _, (synchDisk w).
Qed.

(** ** Address translation *)

Lemma chain_links_nonneg fuel : ∀ this d links,
  chain_links fuel this d = Done links → 0 ≤ links.
Proof.
  induction fuel as [|fuel IH]; intros this d links; simpl; [done|].
  destruct (numSectors this <=? NumDirect - 1); [intros [= <-]; lia|].
  destruct (load (dataSectors this) (NumDirect - 1)) as [s| |]; simpl; try done.
  destruct (fetch_indirect this d s) as [child| |]; simpl; try done.
  destruct (chain_links fuel _ d) as [k| |] eqn:E; simpl; try done.
  intros [= <-]. apply IH in E. lia.
Qed.

(** In the last node of the chain [ByteToSector] gives the sector that
    holds the byte. *)
Lemma ByteToSector_last_node fuel :
  ∀ this d offset links,
    chain_links fuel this d = Done links →
    links * ((NumDirect - 1) * SectorSize) ≤ offset →
    ByteToSector fuel this d offset = holding_sector fuel this d offset.
Proof.
  pose proof HG as [HS HK].
  induction fuel as [|fuel IH]; intros this d offset links; simpl; [done|].
  destruct (numSectors this <=? NumDirect - 1); [done|].
  destruct (load (dataSectors this) (NumDirect - 1)) as [s| |]; simpl; try done.
  destruct (fetch_indirect this d s) as [child| |]; simpl.
  - destruct (chain_links fuel _ d) as [k| |] eqn:E; simpl; try done.
    intros [= <-] Hoff. pose proof (chain_links_nonneg _ _ _ _ E) as Hk.
    case_ltb; [nia|]. apply (IH _ _ _ k E). nia.
  - done.
  - done.
Qed.

Lemma Allocate_true_fields fuel this w n h' w' :
  Allocate fuel this w n = Done (true, h', w') →
  numBytes h' = n ∧ numSectors h' = divRoundUp n SectorSize.
Proof.
  destruct fuel as [|fuel]; simpl; [done|].
  destruct (gtu n MaxFileSize); [done|].
  destruct (NumClear (freeMap w) <? divRoundUp n SectorSize); [done|].
  destruct (gtu n ((NumDirect - 1) * SectorSize)).
  - destruct (find_loop _ _ _ _) as [[ds fm1]| |]; simpl; try done.
    destruct (Allocate fuel _ _ _) as [[[[] child] w2]| |]; simpl; try done.
    destruct (Find (freeMap w2)) as [s fm3].
    destruct (store ds _ s) as [ds1| |]; simpl; try done.
    by intros [= <- <-].
  - destruct (find_loop _ _ _ _) as [[ds fm1]| |]; simpl; try done.
    by intros [= <- <-].
Qed.

(** [Extend] returns FALSE, with the header and the world as they were, when
    one of its two checks fails. *)
Lemma Extend_checks fuel this w n :
  MaxFileSize < divRoundUp n SectorSize
  ∨ NumClear (freeMap w) < divRoundUp n SectorSize →
  Extend (S fuel) this w n = Done (false, this, w).
Proof.
  intros Hfail. cbn [Extend]. case_gtu Hc; [done|].
  case_ltb; [done | lia].
Qed.

(** When [Extend], called with a size that is not negative, returns FALSE:
    exactly when one of its two checks fails. *)
Lemma Extend_fails_iff fuel :
  ∀ this w n ok h' w',
    0 ≤ n →
    Extend fuel this w n = Done (ok, h', w') →
    (ok = false ↔ MaxFileSize < divRoundUp n SectorSize
                  ∨ NumClear (freeMap w) < divRoundUp n SectorSize).
Proof.
  pose proof HG as [HS HK].
  induction fuel as [|fuel IH]; intros this w n ok h' w' Hn0;
    cbn [Extend]; [done|].
  pose proof (divRoundUp_nonneg n SectorSize HS Hn0) as Hd0.
  case_gtu Hc; [intros [= <- <- <-]; split; [lia | done]|].
  case_ltb; [intros [= <- <- <-]; split; [lia | done]|].
  assert (∀ b, b = true → (b = false ↔ MaxFileSize < divRoundUp n SectorSize
            ∨ NumClear (freeMap w) < divRoundUp n SectorSize)) as Htrue.
  { intros b ->. split; [done | lia]. }
  case_gtu Hbig.
  - case_ltb.
    + destruct (find_loop _ _ _ _) as [[ds fm1]| |]; simpl; try done.
      destruct (Allocate fuel _ _ _) as [[[ok1 child] w2]| |]; simpl; try done.
      destruct (Find (freeMap w2)) as [s fm3].
      destruct (store ds _ s) as [ds1| |]; simpl; try done.
      intros [= <- <- <-]. by apply Htrue.
    + destruct (load _ _) as [s| |]; simpl; try done.
      destruct (fetch_indirect this _ s) as [child0| |]; simpl; try done.
      destruct (Extend fuel _ w _) as [[[ok1 child] w1]| |] eqn:EE; simpl; try done.
      apply IH in EE; [|lia]. rewrite divRoundUp_sub in EE by done.
      destruct ok1; intros [= <- <- <-]; [by apply Htrue|].
      destruct EE as [EE _]. destruct (EE eq_refl); lia.
  - destruct (find_loop _ _ _ _) as [[ds fm1]| |]; simpl; try done.
    intros [= <- <- <-]. by apply Htrue.
Qed.

(** A header that [Allocate] or [Extend] has grown is still made of [int]s
    in an array of [NumDirect] entries. *)
Lemma Allocate_fields fuel this w n ok h' w' :
  Allocate fuel this w n = Done (ok, h', w') →
  (numBytes h' = numBytes this ∧ numSectors h' = numSectors this)
  ∨ (numBytes h' = n ∧ numSectors h' = divRoundUp n SectorSize).
Proof.
  destruct fuel as [|fuel]; simpl; [done|].
  destruct (gtu n MaxFileSize); [intros [= <- <- <-]; by left|].
  destruct (NumClear (freeMap w) <? divRoundUp n SectorSize);
    [intros [= <- <- <-]; by right|].
  destruct (gtu n ((NumDirect - 1) * SectorSize)).
  - destruct (find_loop _ _ _ _) as [[ds fm1]| |]; simpl; try done.
    destruct (Allocate fuel _ _ _) as [[[[] child] w2]| |]; simpl; try done.
    + destruct (Find (freeMap w2)) as [s fm3].
      destruct (store ds _ s) as [ds1| |]; simpl; try done.
      intros [= <- <- <-]. by right.
    + intros [= <- <- <-]. by right.
  - destruct (find_loop _ _ _ _) as [[ds fm1]| |]; simpl; try done.
    intros [= <- <- <-]. by right.
Qed.

Lemma growth_keeps_header (HS : 0 < SectorSize) fuel this w n ok h' w' :
  header_wf this → header_ints this → int32 n →
  Z.of_nat (length (freeMap w)) ≤ 2147483648 →
  Allocate fuel this w n = Done (ok, h', w')
  ∨ Extend fuel this w n = Done (ok, h', w') →
  header_wf h' ∧ header_ints h'.
Proof.
  intros Hwf (Hb0 & Hs0 & Hds) Hn Hlen [Hrun|Hrun].
  - pose proof (Allocate_fields _ _ _ _ _ _ _ Hrun) as Hf.
    apply Allocate_inv in Hrun as (Hl & _ & Hints).
    unfold header_wf in *. split; [by rewrite Hl|].
    unfold header_ints.
    destruct Hf as [[-> ->]|[-> ->]].
    + split; [done|]. split; [done | by apply Hints].
    + split; [done|]. split; [by apply divRoundUp_int32 | by apply Hints].
  - apply Extend_inv in Hrun as (Hl & _ & Hints & Hf & Hsame).
    destruct ok.
    + destruct Hf as [Hb Hs]; [done|].
      unfold header_wf in *. split; [by rewrite Hl|].
      unfold header_ints. rewrite Hb, Hs.
      split; [done|]. split; [by apply divRoundUp_int32 | by apply Hints].
    + specialize (Hsame eq_refl). injection Hsame as Hb Hs Hd.
      unfold header_wf, header_ints in *. rewrite Hb, Hs, Hd. by split.
Qed.

(** ** The chain that Allocate builds *)

Opaque FetchFrom WriteBack.

Lemma chain_frame depth : ∀ this d x s,
  s ∉ chain_headers depth this d →
  chain_ok depth this (WriteBack x d s) = chain_ok depth this d
  ∧ chain_headers depth this (WriteBack x d s) = chain_headers depth this d.
Proof.
  induction depth as [|depth IH]; intros this d x s Hs;
    cbn [chain_ok chain_headers] in *; [done|].
  destruct (numBytes this <=? (NumDirect - 1) * SectorSize); [done|].
  destruct (load (dataSectors this) (NumDirect - 1)) as [s0| |]; [|done|done].
  unfold fetch_indirect in *.
  destruct (indirect this) as [c|]; [|done].
  apply not_elem_of_cons in Hs as [Hne Hs].
  rewrite FetchFrom_WriteBack_ne by done.
  destruct (IH (FetchFrom c d s0) d x s Hs) as [-> ->]. done.
Qed.

Lemma sectors_claimed_ge fuel : ∀ n,
  (Z.to_nat n < fuel)%nat → divRoundUp n SectorSize ≤ sectors_claimed fuel n.
Proof.
  pose proof HG as [HS HK].
  induction fuel as [|fuel IH]; intros n Hfuel; [lia|]. simpl.
  rewrite Z.gtb_ltb. case_ltb; [|lia].
  specialize (IH (n - (NumDirect - 1) * SectorSize)).
  rewrite divRoundUp_sub in IH by done. nia.
Qed.

(** With enough clear sectors for the data and for the headers of the
    chain, [Allocate] succeeds, claims exactly those sectors and leaves on
    disk a consistent chain whose header sectors are marked in the free
    map. *)
Lemma Allocate_chain  (fuel : nat) : ∀ this w n,
  header_wf this → (Z.to_nat n < fuel)%nat → int32 n → 0 ≤ n →
  n ≤ MaxFileSize →
  Z.of_nat (length (freeMap w)) ≤ 2147483648 →
  sectors_claimed fuel n ≤ NumClear (freeMap w) →
  ∃ h' w',
    Allocate fuel this w n = Done (true, h', w')
    ∧ chain_ok fuel h' (synchDisk w') = true
    ∧ Forall (λ s, Test (freeMap w') s = true)
             (chain_headers fuel h' (synchDisk w'))
    ∧ NumClear (freeMap w') = NumClear (freeMap w) - sectors_claimed fuel n.
Proof.
  pose proof HG as [HS HK].
  induction fuel as [|fuel IH];
    intros this w n Hwf Hfuel Hn Hn0 Hmax Hlen Hclear; [lia|].
  pose proof (sectors_claimed_ge (S fuel) n Hfuel) as Hge.
  assert (divRoundUp n SectorSize ≤ NumClear (freeMap w)) as Hroom by lia.
  clear Hge. unfold header_wf in Hwf.
  cbn [Allocate sectors_claimed numSectors numBytes dataSectors with_size
       with_sectors freeMap synchDisk] in Hclear |- *.
  rewrite !gtu_nonneg by lia. rewrite !Z.gtb_ltb in *.
  case_ltb; [lia|]. case_ltb; [lia|].
  pose proof (divRoundUp_le n SectorSize (NumDirect - 1) HS) as Hle.
  destruct (Z.ltb_spec ((NumDirect - 1) * SectorSize) n) as [Hbig|Hsmall].
  - pose proof (sectors_claimed_ge fuel (n - (NumDirect - 1) * SectorSize)) as Hge'.
    destruct (find_loop_spec (Z.to_nat (NumDirect - 1)) 0 (dataSectors this) (freeMap w))
      as (ds & fm1 & -> & Hl & Hf & Hnc & Hd & Ht); [lia | lia |].
    simpl.
    destruct (IH newFileHeader (mkWorld fm1 (synchDisk w))
                (n - (NumDirect - 1) * SectorSize))
      as (child & w2 & EA & Hcok & Hcmarks & Hcnc).
    { apply newFileHeader_wf. lia. }
    { nia. }
    { unfold int32 in *. nia. }
    { lia. }
    { nia. }
    { simpl. lia. }
    { simpl. lia. }
    rewrite EA. simpl in *.
    pose proof (Allocate_inv _ _ _ _ _ _ _ EA) as (_ & Hfl & _). simpl in Hfl.
    destruct (growth_keeps_header HS fuel newFileHeader (mkWorld fm1 (synchDisk w))
                (n - (NumDirect - 1) * SectorSize) true child w2) as [Hcwf Hci];
      [apply newFileHeader_wf; lia | apply newFileHeader_ints
      | unfold int32 in *; nia | simpl; lia | by left |].
    pose proof (Allocate_true_fields _ _ _ _ _ _ EA) as [Hcb Hcs].
    pose proof (Find_claims (freeMap w2)) as HFc.
    pose proof (Find_NumClear (freeMap w2)) as HFn.
    pose proof (Find_keeps_marks (freeMap w2)) as HFm.
    destruct (Find (freeMap w2)) as [s fm3] eqn:EF. simpl in *.
    destruct HFc as (Hs0 & Hsclear & Hsmark); [lia|].
    rewrite store_Done by lia. simpl.
    eexists _, _. split; [reflexivity|].
    unfold fetch_indirect.
    cbn [chain_ok chain_headers synchDisk freeMap numBytes numSectors dataSectors
         indirect with_size with_sectors with_indirect].
    assert (s ∉ chain_headers fuel child (synchDisk w2)) as Hfresh.
    { intros Hin. rewrite Forall_forall in Hcmarks. apply Hcmarks in Hin. congruence. }
    destruct (chain_frame fuel child (synchDisk w2) child s Hfresh) as [Hframe1 Hframe2].
    assert ((n <=? (NumDirect - 1) * SectorSize) = false) as -> by lia.
    rewrite load_insert by lia. rewrite FetchFrom_WriteBack_self by done.
    rewrite Hframe1, Hframe2, Hcok, Hcb, length_insert, Hl.
    repeat split.
    + rewrite !andb_true_r. simpl. repeat (apply andb_true_intro; split); lia.
    + apply Forall_cons. split; [done|].
      eapply Forall_impl; [exact Hcmarks | auto].
    + lia.
  - destruct (find_loop_spec (Z.to_nat (divRoundUp n SectorSize)) 0
                (dataSectors this) (freeMap w))
      as (ds & fm1 & -> & Hl & Hf & Hnc & Hd & Ht).
    { lia. } { pose proof (divRoundUp_bounds n SectorSize HS). lia. }
    simpl. eexists _, _. split; [reflexivity|].
    cbn [chain_ok chain_headers synchDisk freeMap numBytes numSectors dataSectors
         with_size with_sectors].
    assert ((n <=? (NumDirect - 1) * SectorSize) = true) as -> by lia.
    rewrite Hl. repeat split.
    + rewrite orb_true_l, andb_true_r. repeat (apply andb_true_intro; split); lia.
    + destruct fuel; simpl; by apply Forall_nil.
    + lia.
Qed.

Transparent FetchFrom WriteBack.

(** ** Extend beyond MaxFileSize *)

(** On a new header [Extend] returns TRUE as soon as its two checks pass. *)
Lemma Extend_new_header fuel w n :
  (Z.to_nat n < fuel)%nat → 0 ≤ n →
  divRoundUp n SectorSize ≤ MaxFileSize →
  divRoundUp n SectorSize ≤ NumClear (freeMap w) →
  ∃ h' w', Extend fuel newFileHeader w n = Done (true, h', w').
Proof.
  intros Hfuel Hn0 Hmax Hclear. pose proof HG as [HS HK].
  pose proof (divRoundUp_nonneg n SectorSize HS Hn0) as Hd0.
  destruct fuel as [|fuel]; [lia|]. cbn [Extend].
  rewrite !gtu_nonneg by lia. simpl. rewrite !Z.gtb_ltb.
  case_ltb; [lia|]. case_ltb; [lia|].
  pose proof (divRoundUp_le n SectorSize (NumDirect - 1) HS) as Hle.
  case_ltb.
  - case_ltb; [|nia].
    destruct (find_loop_spec (Z.to_nat (NumDirect - 1 - 0)) 0
                (replicate (Z.to_nat NumDirect) 0) (freeMap w))
      as (ds & fm1 & -> & Hl & _); [lia | rewrite length_replicate; lia |].
    simpl.
    destruct (Allocate_spec fuel newFileHeader (mkWorld fm1 (synchDisk w))
                (n - (NumDirect - 1) * SectorSize))
      as (ok & child & w2 & -> & _); [apply newFileHeader_wf; lia | nia |].
    simpl. destruct (Find (freeMap w2)) as [s fm3].
    rewrite store_Done by (rewrite Hl, length_replicate; lia).
    simpl. eauto.
  - destruct (find_loop_spec (Z.to_nat (divRoundUp n SectorSize - 0)) 0
                (replicate (Z.to_nat NumDirect) 0) (freeMap w))
      as (ds & fm1 & -> & _); [lia | rewrite length_replicate; lia |].
    simpl. eauto.
Qed.

(** Whatever the value of [MaxFileSize], a size one byte above it is refused
    by [Allocate] and accepted by [Extend], which compares the number of
    sectors with it. *)
Lemma Extend_accepts_beyond_MaxFileSize  fuel w :
  2 ≤ SectorSize → 1 ≤ MaxFileSize →
  (Z.to_nat (MaxFileSize + 1) < fuel)%nat →
  divRoundUp (MaxFileSize + 1) SectorSize ≤ NumClear (freeMap w) →
  Allocate fuel newFileHeader w (MaxFileSize + 1) = Done (false, newFileHeader, w)
  ∧ ∃ h' w', Extend fuel newFileHeader w (MaxFileSize + 1) = Done (true, h', w').
Proof.
  intros HS2 HM Hfuel Hclear. split.
  - destruct fuel as [|fuel]; [lia|]. cbn [Allocate].
    case_gtu Hc; [done | lia].
  - apply Extend_new_header; try done; [lia|].
    apply divRoundUp_le; [lia | nia].
Qed.

End Operations.

(** * The claims *)

(** ** Failure of Allocate *)

(** C4.  [Allocate] on a newly created header, with a size that is not
    negative, returns FALSE exactly when the size asked for exceeds
    [MaxFileSize] or the free map has fewer clear sectors than the size
    rounded up to sectors; when it returns FALSE the free map and the disk
    are as they were.  With enough fuel for the recursion the call always
    returns. *)
Theorem Allocate_fails_iff {G : Geometry} (HG : geometry_ok G)
    (fuel : nat) (w : World) (n needed : Z) :
  (Z.to_nat n < fuel)%nat →
  0 ≤ n →
  SectorSize * (needed - 1) < n ∧ n ≤ SectorSize * needed →
  ∃ ok this' w',
    Allocate fuel newFileHeader w n = Done (ok, this', w')
    ∧ (ok = false ↔ MaxFileSize < n ∨ NumClear (freeMap w) < needed)
    ∧ (ok = false → w' = w).
Proof.
  intros Hfuel Hn0 [Hlo Hhi]. pose proof HG as [HS HK].
  destruct (Allocate_spec HG fuel newFileHeader w n)
    as (ok & this' & w' & Hrun & _ & _ & Hok & Hw & _); [|done|].
  { apply newFileHeader_wf. lia. }
  rewrite (divRoundUp_unique n SectorSize needed) in Hok by done.
  exists ok, this', w'. split; [done|]. split; [|done].
  rewrite Hok. split; [intros [?|[?|?]]; [lia | by left | by right] | tauto].
Qed.

Lemma Allocate_fails_iff_witness :
  ∃ ok this' w',
    Allocate (G:=nachos_geometry) 501 (newFileHeader (G:=nachos_geometry))
             (blank_world 32) 500 = Done (ok, this', w')
    ∧ (ok = false ↔ 3840 < 500 ∨ NumClear (freeMap (blank_world 32)) < 4)
    ∧ (ok = false → w' = blank_world 32).
Proof.
  apply (Allocate_fails_iff (G:=nachos_geometry)).
  - split; reflexivity.
  - vm_compute. lia.
  - lia.
  - vm_compute. split; [reflexivity | discriminate].
Defined.

(** C9.  When the size is within [MaxFileSize] but the free map has too few
    clear sectors, [Allocate] on a newly created header returns FALSE and
    leaves the free map and the disk as they were, but [numBytes] and
    [numSectors] of the header have already been overwritten with the size
    asked for and its number of sectors. *)
Theorem Allocate_no_space_sets_size {G : Geometry} (HS : 0 < SectorSize)
    (fuel : nat) (w : World) (n : Z) :
  n ≤ MaxFileSize →
  NumClear (freeMap w) < divRoundUp n SectorSize →
  ∃ this',
    Allocate (S fuel) newFileHeader w n = Done (false, this', w)
    ∧ numBytes this' = n ∧ numSectors this' = divRoundUp n SectorSize
    ∧ numBytes this' ≠ numBytes newFileHeader
    ∧ numSectors this' ≠ numSectors newFileHeader.
Proof.
  intros Hmax Hclear.
  pose proof (NumClear_nonneg (freeMap w)).
  pose proof (divRoundUp_bounds n SectorSize HS).
  assert (0 ≤ n) as Hn0 by nia.
  cbn [Allocate]. rewrite gtu_nonneg by done. rewrite Z.gtb_ltb.
  case_ltb; [lia|]. cbn [numSectors with_size]. case_ltb; [|lia].
  eexists. split; [reflexivity|]. simpl. repeat split; nia.
Qed.

Lemma Allocate_no_space_sets_size_witness :
  ∃ this',
    Allocate (G:=nachos_geometry) 1 (newFileHeader (G:=nachos_geometry))
             (blank_world 2) 500 = Done (false, this', blank_world 2)
    ∧ numBytes this' = 500 ∧ numSectors this' = 4
    ∧ numBytes this' ≠ 0 ∧ numSectors this' ≠ 0.
Proof.
  apply (Allocate_no_space_sets_size (G:=nachos_geometry)).
  - reflexivity.
  - vm_compute. discriminate.
  - vm_compute. reflexivity.
Defined.

(** ** The sector count *)

Lemma sized_divRoundUp {G : Geometry} (HS : 0 < SectorSize) h :
  numSectors h = divRoundUp (numBytes h) SectorSize → sized h.
Proof.
  intros Hs. unfold sized. rewrite Hs. by apply divRoundUp_bounds.
Qed.

Lemma invoke_leaves_header {G : Geometry} fuel c this w v this' w' :
  leaves_header c = true →
  invoke fuel c this w = Done (v, this', w') → this' = this.
Proof.
  destruct c; simpl; try done; intros _.
  - destruct (Deallocate fuel this w); simpl; try done. by intros [= _ <- _].
  - by intros [= _ <- _].
  - destruct (ByteToSector fuel this _ _); simpl; try done. by intros [= _ <- _].
  - by intros [= _ <- _].
  - destruct (Print fuel this _); simpl; try done. by intros [= _ <- _].
Qed.

(** C6.  After a successful [Allocate] and after a successful [Extend] the
    header satisfies [numSectors == ceil(numBytes / SectorSize)]; a call of
    [Deallocate], [WriteBack], [ByteToSector], [FileLength] or [Print] on a
    header that satisfies the equation leaves a header that satisfies it,
    and so does writing the header to a sector and fetching it back into
    another object. *)
Theorem sector_count_equation {G : Geometry} (HS : 0 < SectorSize) :
  (∀ fuel this w n this' w',
     Allocate fuel this w n = Done (true, this', w') → sized this')
  ∧ (∀ fuel this w n this' w',
       Extend fuel this w n = Done (true, this', w') → sized this')
  ∧ (∀ fuel c this w v this' w',
       leaves_header c = true → sized this →
       invoke fuel c this w = Done (v, this', w') → sized this')
  ∧ (∀ fuel this fresh w sector v1 this1 w1 v2 this2 w2,
       header_fits G → header_wf this → header_ints this → sized this →
       invoke fuel (CallWriteBack sector) this w = Done (v1, this1, w1) →
       invoke fuel (CallFetchFrom sector) fresh w1 = Done (v2, this2, w2) →
       sized this2).
Proof.
  split; [|split; [|split]].
  - intros fuel this w n this' w' Hrun. apply sized_divRoundUp; [done|].
    apply Allocate_true_fields in Hrun as [-> ->]. done.
  - intros fuel this w n this' w' Hrun. apply sized_divRoundUp; [done|].
    apply Extend_inv in Hrun as (_ & _ & _ & Hf & _). destruct Hf as [-> ->]; done.
  - intros fuel c this w v this' w' Hc Hsized Hrun.
    by apply invoke_leaves_header in Hrun as ->.
  - intros fuel this fresh w sector v1 this1 w1 v2 this2 w2 Hfit Hwf Hints Hsized.
    simpl. intros [= _ <- <-] [= _ <- _]. simpl.
    rewrite FetchFrom_WriteBack by done. exact Hsized.
Qed.

Lemma sector_count_equation_witness :
  sized (G:=nachos_geometry) file_500
  ∧ sized (G:=nachos_geometry) file_3840
  ∧ (∀ v this' w',
       invoke (G:=nachos_geometry) 1 CallDeallocate file_500 world_500
       = Done (v, this', w') → sized (G:=nachos_geometry) this').
Proof.
  pose proof (sector_count_equation (G:=nachos_geometry) eq_refl)
    as (Hallocate & Hextend & Hother & _).
  split; [|split].
  - apply (Hallocate 1%nat (newFileHeader (G:=nachos_geometry)) (blank_world 32)
             500 file_500 world_500).
    vm_compute. reflexivity.
  - apply (Hextend 2%nat file_128 world_128 3840 file_3840
             (mkWorld (freeMap world_3840)
                (WriteBack (G:=nachos_geometry) tail_3840 (synchDisk world_128) 30))).
    vm_compute. reflexivity.
  - intros v this' w'.
    apply (Hother 1%nat CallDeallocate file_500 world_500 v this' w').
    + reflexivity.
    + apply (Hallocate 1%nat (newFileHeader (G:=nachos_geometry)) (blank_world 32)
               500 file_500 world_500).
      vm_compute. reflexivity.
Defined.

(** ** Headers written and fetched *)

(** C8.  Every call of [Allocate] or [Extend] that returns, whatever it
    returns, on a header made of [int]s leaves a header that survives the
    round trip: written to any sector with [WriteBack] and fetched from
    that sector into another object, it has the same [numBytes],
    [numSectors] and [dataSectors].  The headers reachable from a new one
    are made of [int]s by the same step, so the round trip holds at each
    of them. *)
Theorem WriteBack_FetchFrom_roundtrip {G : Geometry} (HS : 0 < SectorSize)
    (Hfit : header_fits G) (fuel : nat) (this : FileHeader) (w : World) (n : Z)
    (ok : bool) (this' : FileHeader) (w' : World) :
  header_wf this → header_ints this → int32 n →
  Z.of_nat (length (freeMap w)) ≤ 2147483648 →
  Allocate fuel this w n = Done (ok, this', w')
  ∨ Extend fuel this w n = Done (ok, this', w') →
  (header_wf this' ∧ header_ints this')
  ∧ ∀ fresh sector d,
      stored (FetchFrom fresh (WriteBack this' d sector) sector) = stored this'.
Proof.
  intros Hwf Hints Hn Hlen Hrun.
  destruct (growth_keeps_header HS fuel this w n ok this' w')
    as [Hwf' Hints']; try done.
  split; [done|]. intros fresh sector d.
  by rewrite FetchFrom_WriteBack.
Qed.

Lemma WriteBack_FetchFrom_roundtrip_witness :
  stored (FetchFrom (G:=nachos_geometry) file_128
            (WriteBack (G:=nachos_geometry) file_3840 (synchDisk world_3840) 40)
            40)
  = stored file_3840.
Proof.
  apply (WriteBack_FetchFrom_roundtrip (G:=nachos_geometry) eq_refl
           ltac:(vm_compute; discriminate) 2
           (newFileHeader (G:=nachos_geometry)) (blank_world 64) 3840
           true file_3840 world_3840).
  - reflexivity.
  - unfold header_ints, int32; simpl; repeat split; try lia.
    repeat (apply Forall_cons; split; [lia|]). by apply Forall_nil.
  - split; [discriminate | reflexivity].
  - vm_compute. discriminate.
  - left. vm_compute. reflexivity.
Defined.

(** ** Extend with a smaller size *)

(** C10.  On a header whose chain is consistent, the objects of the
    chained headers being those that [indirect] points to, [Extend] with a
    size that is not negative and is smaller than [numBytes], and that
    passes its two checks, returns TRUE, sets [numBytes] and [numSectors]
    to the smaller values and leaves the free map and the sector numbers of
    the header as they were: no sector goes back to the free map. *)
Theorem Extend_shrinks {G : Geometry} (HG : geometry_ok G)
    (depth fuel : nat) (this : FileHeader) (w : World) (n : Z) :
  chain_ok depth this (synchDisk w) = true → (depth < fuel)%nat →
  0 ≤ n → n < numBytes this →
  divRoundUp n SectorSize ≤ MaxFileSize →
  divRoundUp n SectorSize ≤ NumClear (freeMap w) →
  ∃ this' w',
    Extend fuel this w n = Done (true, this', w')
    ∧ numBytes this' = n
    ∧ numSectors this' = divRoundUp n SectorSize
    ∧ dataSectors this' = dataSectors this
    ∧ freeMap w' = freeMap w.
Proof.
  intros Hok Hfuel Hn0 Hlt Hmax Hclear.
  destruct (Extend_shrinks_chain HG depth fuel this w n)
    as (h' & d' & Hrun & [= Hb Hs Hd]); try done.
  eexists _, _. split; [exact Hrun|]. done.
Qed.

Lemma Extend_shrinks_witness :
  ∃ this' w',
    Extend (G:=nachos_geometry) 2 file_3840 world_3840 3800 = Done (true, this', w')
    ∧ numBytes this' = 3800
    ∧ numSectors this' = divRoundUp 3800 128
    ∧ dataSectors this' = dataSectors file_3840
    ∧ freeMap w' = freeMap world_3840.
Proof.
  apply (Extend_shrinks (G:=nachos_geometry) ltac:(split; reflexivity) 1 2
           file_3840 world_3840 3800).
  - vm_compute. reflexivity.
  - lia.
  - lia.
  - reflexivity.
  - vm_compute. discriminate.
  - vm_compute. discriminate.
Defined.

(** ** The last slot of a header *)

(** C1, as stated, fails.  A file of [NumDirect] sectors has
    [numSectors <= NumDirect], yet after [Allocate] its last slot names the
    sector of the header of a child node (sector 30, which describes the last
    128 bytes), not a data sector: the last 128 bytes of the file are in
    sector 29, which [ByteToSector] reaches through the child. *)
Lemma last_slot_at_NumDirect_sectors :
  Allocate (G:=nachos_geometry) 2 (newFileHeader (G:=nachos_geometry))
           (blank_world 64) 3840 = Done (true, file_3840, world_3840)
  ∧ numSectors file_3840 ≤ NumDirect (Geometry:=nachos_geometry)
  ∧ last_slot_links (G:=nachos_geometry) file_3840 (synchDisk world_3840)
  ∧ ¬ last_slot_is_data (G:=nachos_geometry) 2 file_3840 (synchDisk world_3840).
Proof.
  split; [vm_compute; reflexivity|].
  split; [vm_compute; discriminate|].
  split.
  - exists 30, tail_3840. vm_compute. repeat split; reflexivity.
  - unfold last_slot_is_data. vm_compute. discriminate.
Qed.

(** C1, amended.  After a successful [Allocate], and after a successful
    [Extend] to a size between 0 and [MaxFileSize], the last slot of the
    header names the sector of the header of the next node of the chain
    whenever [numSectors > NumDirect-1], and is as it was before the call
    (no data sector is put in it) whenever [numSectors <= NumDirect-1];
    [ByteToSector] reads the header by the same threshold [NumDirect-1]. *)
Theorem last_slot_threshold {G : Geometry} (HG : geometry_ok G)
    (Hfit : header_fits G) (fuel : nat) (this : FileHeader) (w : World) (n : Z)
    (this' : FileHeader) (w' : World) :
  header_wf this → int32 n →
  Z.of_nat (length (freeMap w)) ≤ 2147483648 →
  Allocate fuel this w n = Done (true, this', w')
  ∨ (0 ≤ n ∧ n ≤ MaxFileSize
     ∧ Extend fuel this w n = Done (true, this', w')) →
  last_slot_rule this this' (synchDisk w')
  ∧ ∀ fuel' offset,
      ByteToSector (S fuel') this' (synchDisk w') offset
      = if numSectors this' <=? NumDirect - 1
        then load (dataSectors this') (Z.quot offset SectorSize)
        else s ← load (dataSectors this') (NumDirect - 1);
             child ← fetch_indirect this' (synchDisk w') s;
             ByteToSector fuel' child (synchDisk w')
                          (offset - (NumDirect - 1) * SectorSize).
Proof.
  intros Hwf Hn Hlen Hrun. split; [|done].
  destruct Hrun as [Hrun|(Hn0 & Hmax & Hrun)].
  - destruct (Allocate_last_slot HG Hfit (fuel `max` S (Z.to_nat n)) this w n)
      as (ok & h1 & w1 & Hrun1 & Hrule); try done; [lia|].
    rewrite (Allocate_fuel_mono fuel _ this w n _ Hrun) in Hrun1 by lia.
    injection Hrun1 as <- <- <-. by apply Hrule.
  - by apply (Extend_last_slot HG Hfit fuel this w n).
Qed.

Lemma last_slot_threshold_witness :
  last_slot_rule (G:=nachos_geometry) (newFileHeader (G:=nachos_geometry))
                 file_3840 (synchDisk world_3840)
  ∧ last_slot_rule (G:=nachos_geometry) file_128 file_3840
      (WriteBack (G:=nachos_geometry) tail_3840 (synchDisk world_128) 30).
Proof.
  split.
  - apply (last_slot_threshold (G:=nachos_geometry) ltac:(split; reflexivity)
             ltac:(vm_compute; discriminate) 2
             (newFileHeader (G:=nachos_geometry)) (blank_world 64) 3840
             file_3840 world_3840).
    + reflexivity.
    + split; [discriminate | reflexivity].
    + vm_compute. discriminate.
    + left. vm_compute. reflexivity.
  - apply (last_slot_threshold (G:=nachos_geometry) ltac:(split; reflexivity)
             ltac:(vm_compute; discriminate) 2 file_128 world_128 3840
             file_3840
             (mkWorld (freeMap world_3840)
                (WriteBack (G:=nachos_geometry) tail_3840 (synchDisk world_128) 30))).
    + reflexivity.
    + split; [discriminate | reflexivity].
    + vm_compute. discriminate.
    + right. split; [discriminate|].
      split; [discriminate | vm_compute; reflexivity].
Defined.

(** ** Translation of offsets *)

(** What [ByteToSector] does: it returns [dataSectors[offset / SectorSize]]
    when [numSectors <= NumDirect-1] (an entry of the array, for an offset
    within the file), and otherwise the translation, by the child whose
    header is in the sector of the last slot, of
    [offset - (NumDirect-1)*SectorSize].  What this gives: an offset that lies
    in the last node of the chain maps to the sector that holds it. *)
Lemma ByteToSector_translation {G : Geometry} (HG : geometry_ok G)
    (fuel : nat) (this : FileHeader) (d : Disk) (offset : Z) :
  0 ≤ offset → offset < numBytes this →
  (numSectors this ≤ NumDirect - 1 →
     ByteToSector (S fuel) this d offset
     = load (dataSectors this) (Z.quot offset SectorSize)
     ∧ (header_wf this → sized this →
        ∃ s, ByteToSector (S fuel) this d offset = Done s
             ∧ dataSectors this !! Z.to_nat (Z.quot offset SectorSize) = Some s))
  ∧ (NumDirect - 1 < numSectors this →
       ByteToSector (S fuel) this d offset
       = s ← load (dataSectors this) (NumDirect - 1);
         child ← fetch_indirect this d s;
         ByteToSector fuel child d (offset - (NumDirect - 1) * SectorSize))
  ∧ (∀ links,
       chain_links fuel this d = Done links →
       links * ((NumDirect - 1) * SectorSize) ≤ offset →
       ByteToSector fuel this d offset = holding_sector fuel this d offset).
Proof.
  intros Hlo Hhi. pose proof HG as [HS HK]. split; [|split].
  - intros Hdirect. simpl. case_ltb; [|lia]. split; [done|].
    intros Hwf [_ Hsz]. unfold header_wf in Hwf.
    assert (0 ≤ Z.quot offset SectorSize) as Hq0 by (apply Z.quot_pos; lia).
    assert (Z.quot offset SectorSize < NumDirect - 1) as Hq1
      by (apply Z.quot_lt_upper_bound; nia).
    destruct (dataSectors this !! Z.to_nat (Z.quot offset SectorSize)) as [s|] eqn:E.
    + exists s. split; [|done]. apply load_Done. split; [lia | done].
    + apply lookup_ge_None in E. lia.
  - intros Hchain. simpl. case_ltb; [lia | done].
  - intros links. by apply ByteToSector_last_node.
Qed.

Example ByteToSector_translation_3712 :
  ByteToSector (G:=nachos_geometry) 2 file_3840 (synchDisk world_3840) 3712
  = holding_sector (G:=nachos_geometry) 2 file_3840 (synchDisk world_3840) 3712.
Proof.
  apply (proj2 (proj2 (ByteToSector_translation (G:=nachos_geometry)
                         ltac:(split; reflexivity) 2 file_3840
                         (synchDisk world_3840) 3712
                         ltac:(discriminate) ltac:(reflexivity))) 1).
  - vm_compute. reflexivity.
  - vm_compute. discriminate.
Qed.

(** ** Where the code departs from its description *)

(** C2.  A file of exactly [NumDirect] sectors on a blank disk of 64
    sectors: [Allocate] claims 31 sectors (29 direct ones, the sector of the
    child and the sector of its header); [Deallocate] takes the branch
    [numSectors <= NumDirect], releases the thirty sectors named in the
    array and never visits the child: sector 29 stays marked and 63 sectors
    are clear instead of 64. *)
Theorem Deallocate_leaks_child_sector :
  NumClear (freeMap (blank_world 64)) = 64
  ∧ Allocate (G:=nachos_geometry) 2 (newFileHeader (G:=nachos_geometry))
             (blank_world 64) 3840 = Done (true, file_3840, world_3840)
  ∧ NumClear (freeMap world_3840) = 64 - 31
  ∧ ∃ w', Deallocate (G:=nachos_geometry) 2 file_3840 world_3840 = Done w'
          ∧ NumClear (freeMap w') = 63
          ∧ Test (freeMap w') 29 = true.
Proof.
  split; [reflexivity|]. split; [vm_compute; reflexivity|].
  split; [reflexivity|].
  eexists. split; [vm_compute; reflexivity|]. split; reflexivity.
Qed.

(** C3.  A size of 3841 bytes exceeds [MaxFileSize] (3840): [Allocate]
    refuses it, but [Extend] compares the number of sectors (31) with
    [MaxFileSize], lets it pass and returns TRUE. *)
Theorem Extend_ceiling_counts_sectors :
  MaxFileSize (Geometry:=nachos_geometry) < 3841
  ∧ numBytes file_128 ≤ 3841
  ∧ Allocate (G:=nachos_geometry) 2 (newFileHeader (G:=nachos_geometry))
             world_128 3841
    = Done (false, newFileHeader (G:=nachos_geometry), world_128)
  ∧ ∃ this' w',
      Extend (G:=nachos_geometry) 2 file_128 world_128 3841 = Done (true, this', w')
      ∧ numBytes this' = 3841 ∧ numSectors this' = 31.
Proof.
  split; [reflexivity|]. split; [discriminate|]. split; [vm_compute; reflexivity|].
  eexists _, _. split; [vm_compute; reflexivity|]. split; reflexivity.
Qed.

(** C5.  On a free map with four clear sectors [Allocate(512)] succeeds with
    four sectors.  [Allocate(128)], [Extend(256)], [Extend(512)] from the
    same free map: the last call needs two more sectors and two are clear,
    but [Extend] compares the clear sectors with the whole new sector count
    (4) and returns FALSE; the file stays at two sectors. *)
Theorem Extend_refuses_last_step :
  (∃ h w,
     Allocate (G:=nachos_geometry) 1 (newFileHeader (G:=nachos_geometry))
              (blank_world 4) 512 = Done (true, h, w)
     ∧ numSectors h = 4)
  ∧ ∃ h1 w1 h2 w2 h3 w3,
      Allocate (G:=nachos_geometry) 1 (newFileHeader (G:=nachos_geometry))
               (blank_world 4) 128 = Done (true, h1, w1)
      ∧ Extend (G:=nachos_geometry) 1 h1 w1 256 = Done (true, h2, w2)
      ∧ Extend (G:=nachos_geometry) 1 h2 w2 512 = Done (false, h3, w3)
      ∧ numSectors h3 = 2
      ∧ NumClear (freeMap w3) = 2.
Proof.
  split.
  - eexists _, _. split; [vm_compute; reflexivity | reflexivity].
  - eexists _, _, _, _, _, _.
    split; [vm_compute; reflexivity|]. split; [vm_compute; reflexivity|].
    split; [vm_compute; reflexivity|]. split; reflexivity.
Qed.

(** C7.  In the file of 3840 bytes, byte 3711 is the last byte of the
    twenty-ninth sector of the file, which is sector 28 of the disk (slot 28
    of the header).  The header has 30 sectors, more than [NumDirect-1], so
    [ByteToSector] goes to the child with the offset [3711 - 3712 = -1],
    which the child divides to 0: the answer is the first sector of the
    child, sector 29.  For the offset 0 the child is asked for entry -29 of
    its array. *)
Theorem ByteToSector_before_last_node :
  0 ≤ 3711 ∧ 3711 < numBytes file_3840
  ∧ holding_sector (G:=nachos_geometry) 2 file_3840 (synchDisk world_3840) 3711
    = Done 28
  ∧ ByteToSector (G:=nachos_geometry) 2 file_3840 (synchDisk world_3840) 3711
    = Done 29
  ∧ holding_sector (G:=nachos_geometry) 2 file_3840 (synchDisk world_3840) 0
    = Done 0
  ∧ ByteToSector (G:=nachos_geometry) 2 file_3840 (synchDisk world_3840) 0
    = Fault.
Proof.
  split; [lia|]. split; [reflexivity|].
  repeat split; vm_compute; reflexivity.
Qed.

(** * Further properties of the operations *)

(** ** The free map under the loops of [Find] and of [Clear] *)

Lemma Find_first_clear fm :
  0 < NumClear fm →
  ∃ i, Find fm = (Z.of_nat i, <[i := true]> fm) ∧ fm !! i = Some false.
Proof.
  intros Hclear. unfold Find.
  destruct (first_clear fm) as [i|] eqn:E.
  - exists i. split; [done|]. by apply first_clear_Some in E as [? _].
  - apply first_clear_None in E. lia.
Qed.

Lemma NumClear_clear fm i :
  fm !! i = Some true → NumClear (<[i := false]> fm) = NumClear fm + 1.
Proof.
  revert i. induction fm as [|b fm IH]; intros [|i]; simpl; try done.
  - intros [= ->]. lia.
  - intros H. rewrite (IH _ H). lia.
Qed.

Lemma Test_true fm s :
  Test fm s = true ↔ 0 ≤ s ∧ fm !! Z.to_nat s = Some true.
Proof.
  unfold Test. destruct (Z.leb_spec 0 s); [|split; [done | lia]].
  destruct (fm !! Z.to_nat s) as [[]|]; simpl; split; try done; try tauto.
  - by intros [_ [=]].
  - by intros [_ [=]].
Qed.

Lemma release_inv fm s fm' :
  release fm s = Done fm' →
  0 ≤ s ∧ fm !! Z.to_nat s = Some true ∧ fm' = <[Z.to_nat s := false]> fm.
Proof.
  unfold release. destruct (Test fm s) eqn:E; [|done].
  apply Test_true in E as [Hs Hm]. intros [= <-].
  split; [done|]. split; [done|]. unfold Clear.
  destruct (Z.leb_spec 0 s); [done | lia].
Qed.

Lemma release_Done fm s :
  fm !! s = Some true → release fm (Z.of_nat s) = Done (<[s := false]> fm).
Proof.
  intros Hm. unfold release.
  assert (Test fm (Z.of_nat s) = true) as ->
    by (apply Test_true; rewrite Nat2Z.id; split; [lia | done]).
  unfold Clear. destruct (Z.leb_spec 0 (Z.of_nat s)); [|lia].
  by rewrite Nat2Z.id.
Qed.

(** The sectors that a loop of [Find] stores, when the map has that many
    clear ones: they are distinct, they were clear, and they are the only
    ones whose mark changes. *)
Lemma find_loop_sectors n : ∀ i ds fm ds' fm',
  find_loop n i ds fm = Done (ds', fm') →
  Z.of_nat n ≤ NumClear fm →
  ∃ ss : list nat,
    length ss = n ∧ NoDup ss
    ∧ Forall (λ s, fm !! s = Some false) ss
    ∧ (∀ k, fm' !! k = if decide (k ∈ ss) then Some true else fm !! k)
    ∧ (∀ j s, ss !! j = Some s →
         ds' !! (Z.to_nat i + j)%nat = Some (Z.of_nat s)).
Proof.
  induction n as [|n IH]; intros i ds fm ds' fm'; simpl.
  - intros [= <- <-] _. exists []. split; [done|]. split; [constructor|].
    split; [constructor|]. split; [|done].
    intros k. by rewrite decide_False by apply not_elem_of_nil.
  - intros Hrun Hn.
    destruct (Find_first_clear fm) as (s0 & EF & Hs0); [lia|].
    rewrite EF in Hrun.
    destruct (store ds i (Z.of_nat s0)) as [ds1| |] eqn:ES; simpl in Hrun;
      try done.
    apply store_inv in ES as [Hi ->].
    assert (NumClear (<[s0 := true]> fm) = NumClear fm - 1) as Hc1.
    { clear -Hs0. revert s0 Hs0.
      induction fm as [|b fm IHfm]; intros [|s0]; simpl; try done.
      - intros [= ->]. lia.
      - intros H. rewrite (IHfm _ H). lia. }
    pose proof (find_loop_inv _ _ _ _ _ _ Hrun) as (_ & _ & _ & _ & _ & Hframe & _).
    apply IH in Hrun as (ss & Hlen & Hnd & Hcl & Hfm & Hds); [|lia].
    assert (s0 < length fm)%nat as Hs0lt by (by apply lookup_lt_Some in Hs0).
    assert (s0 ∉ ss) as Hfresh.
    { intros Hin. rewrite Forall_forall in Hcl. specialize (Hcl _ Hin).
      rewrite list_lookup_insert_eq in Hcl by done. done. }
    exists (s0 :: ss). split; [simpl; by rewrite Hlen|].
    split; [by constructor|]. split.
    { apply Forall_cons. split; [done|].
      rewrite Forall_forall in Hcl |- *. intros s Hin.
      specialize (Hcl _ Hin).
      rewrite list_lookup_insert_ne in Hcl; [done|]. by intros ->. }
    split.
    { intros k. rewrite Hfm. destruct (decide (k ∈ ss)) as [Hin|Hnin].
      - rewrite decide_True; [done | by right].
      - destruct (decide (k = s0)) as [->|Hne].
        + rewrite decide_True by left. by rewrite list_lookup_insert_eq.
        + rewrite decide_False by (rewrite elem_of_cons; tauto).
          by rewrite list_lookup_insert_ne. }
    intros [|j] s; simpl.
    + intros [= <-]. rewrite Nat.add_0_r, Hframe by lia.
      rewrite list_lookup_insert_eq; [done | lia].
    + intros Hj. specialize (Hds _ _ Hj).
      replace (Z.to_nat i + S j)%nat with (Z.to_nat (i + 1) + j)%nat by lia.
      done.
Qed.

(** A loop of [Clear] over slots that name distinct marked sectors returns,
    and clears these sectors and no other. *)
Lemma clear_loop_sectors (ss : list nat) : ∀ i ds fm,
  0 ≤ i → NoDup ss →
  Forall (λ s, fm !! s = Some true) ss →
  (∀ j s, ss !! j = Some s → ds !! (Z.to_nat i + j)%nat = Some (Z.of_nat s)) →
  ∃ fm',
    clear_loop (length ss) i ds fm = Done fm'
    ∧ ∀ k, fm' !! k = if decide (k ∈ ss) then Some false else fm !! k.
Proof.
  induction ss as [|s0 ss IH]; intros i ds fm Hi Hnd Hm Hds.
  - exists fm. split; [done|]. intros k.
    by rewrite decide_False by apply not_elem_of_nil.
  - cbn [length clear_loop].
    apply NoDup_cons in Hnd as [Hfresh Hnd].
    apply Forall_cons in Hm as [Hm0 Hm].
    pose proof (Hds 0%nat s0 eq_refl) as H0. rewrite Nat.add_0_r in H0.
    assert (load ds i = Done (Z.of_nat s0)) as ->
      by (by apply load_Done).
    simpl. rewrite (release_Done _ _ Hm0). simpl.
    assert (s0 < length fm)%nat as Hs0lt by (by apply lookup_lt_Some in Hm0).
    destruct (IH (i + 1) ds (<[s0 := false]> fm)) as (fm' & Hrun & Hfm);
      [lia | done | | |].
    { rewrite Forall_forall in Hm |- *. intros s Hin.
      rewrite list_lookup_insert_ne; [by apply Hm | by intros ->]. }
    { intros j s Hj.
      replace (Z.to_nat (i + 1) + j)%nat with (Z.to_nat i + S j)%nat by lia.
      by apply Hds. }
    exists fm'. split; [done|]. intros k. rewrite Hfm.
    destruct (decide (k ∈ ss)) as [Hin|Hnin].
    + rewrite decide_True; [done | by right].
    + destruct (decide (k = s0)) as [->|Hne].
      * rewrite decide_True by left. by rewrite list_lookup_insert_eq.
      * rewrite decide_False by (rewrite elem_of_cons; tauto).
        by rewrite list_lookup_insert_ne.
Qed.

(** ** Files that fit in the direct slots *)

(** [Allocate] of a size that the direct slots hold, on a map with enough
    clear sectors: the sectors [ss] that it stores in the slots, in order. *)
Lemma Allocate_direct {G : Geometry} (HG : geometry_ok G) (fuel : nat)
    (this : FileHeader) (w : World) (n : Z) :
  header_wf this → 0 ≤ n → n ≤ MaxFileSize →
  n ≤ (NumDirect - 1) * SectorSize →
  divRoundUp n SectorSize ≤ NumClear (freeMap w) →
  ∃ ds' fm' (ss : list nat),
    Allocate (S fuel) this w n
    = Done (true, mkFileHeader n (divRoundUp n SectorSize) ds' (indirect this),
            mkWorld fm' (synchDisk w))
    ∧ length ss = Z.to_nat (divRoundUp n SectorSize)
    ∧ length ds' = length (dataSectors this)
    ∧ NumClear fm' = NumClear (freeMap w) - Z.of_nat (length ss)
    ∧ NoDup ss
    ∧ Forall (λ s, freeMap w !! s = Some false) ss
    ∧ (∀ k, fm' !! k = if decide (k ∈ ss) then Some true else freeMap w !! k)
    ∧ (∀ j s, ss !! j = Some s → ds' !! j = Some (Z.of_nat s))
    ∧ (∀ j, (length ss ≤ j)%nat → ds' !! j = dataSectors this !! j).
Proof.
  intros Hwf Hn0 Hmax Hdirect Hclear. destruct HG as [HS HK].
  unfold header_wf in Hwf.
  assert (divRoundUp n SectorSize ≤ NumDirect - 1) as Hns
    by (by apply divRoundUp_le).
  cbn [Allocate].
  assert (gtu n MaxFileSize = false) as -> by (unfold gtu; lia).
  cbn [numSectors with_size dataSectors].
  assert ((NumClear (freeMap w) <? divRoundUp n SectorSize) = false) as -> by lia.
  assert (gtu n ((NumDirect - 1) * SectorSize) = false) as -> by (unfold gtu; lia).
  destruct (find_loop_spec (Z.to_nat (divRoundUp n SectorSize)) 0
              (dataSectors this) (freeMap w))
    as (ds' & fm' & Hrun & Hl & _ & Hcount & Hframe & _); [lia | lia |].
  rewrite Hrun. cbn.
  pose proof (NumClear_nonneg (freeMap w)) as Hnn.
  destruct (find_loop_sectors _ _ _ _ _ _ Hrun)
    as (ss & Hlen & Hnd & Hcl & Hfm & Hds); [lia|].
  exists ds', fm', ss. split; [done|].
  split; [done|]. split; [done|]. split; [lia|]. split; [done|].
  split; [done|]. split; [done|]. split.
  - intros j s Hj. by apply (Hds j s).
  - intros j Hj. apply Hframe. lia.
Qed.

Lemma Test_lookup fm s b :
  fm !! s = Some b → Test fm (Z.of_nat s) = b.
Proof.
  intros H. unfold Test. destruct (Z.leb_spec 0 (Z.of_nat s)); [|lia].
  by rewrite Nat2Z.id, H.
Qed.

(** X1.  [Allocate] of a size that is not negative and that the direct
    slots hold, on a map with at least [divRoundUp(fileSize, SectorSize)]
    clear sectors, returns TRUE and leaves the disk alone.  The slots below
    [numSectors] then name sectors that were clear before the call and are
    marked after it, no two slots name the same sector, the count of clear
    sectors has dropped by [numSectors], and no other sector has changed
    its mark. *)
Theorem Allocate_claims_clear_sectors {G : Geometry} (HG : geometry_ok G)
    (fuel : nat) (this : FileHeader) (w : World) (n : Z) :
  header_wf this → 0 ≤ n → n ≤ MaxFileSize →
  n ≤ (NumDirect - 1) * SectorSize →
  divRoundUp n SectorSize ≤ NumClear (freeMap w) →
  ∃ h' w',
    Allocate (S fuel) this w n = Done (true, h', w')
    ∧ synchDisk w' = synchDisk w
    ∧ NumClear (freeMap w')
      = NumClear (freeMap w) - Z.max 0 (numSectors h')
    ∧ (∀ i, 0 ≤ i < numSectors h' →
         ∃ s, load (dataSectors h') i = Done s
              ∧ Test (freeMap w) s = false ∧ Test (freeMap w') s = true)
    ∧ (∀ i j, 0 ≤ i < j → j < numSectors h' →
         load (dataSectors h') i ≠ load (dataSectors h') j)
    ∧ (∀ s, Test (freeMap w') s ≠ Test (freeMap w) s →
         ∃ i, 0 ≤ i < numSectors h' ∧ load (dataSectors h') i = Done s).
Proof.
  intros Hwf Hn0 Hmax Hdirect Hclear.
  destruct (Allocate_direct HG fuel this w n)
    as (ds' & fm' & ss & Hrun & Hlen & Hl & Hcount & Hnd & Hcl & Hfm & Hds & _);
    try done.
  exists (mkFileHeader n (divRoundUp n SectorSize) ds' (indirect this)),
         (mkWorld fm' (synchDisk w)).
  cbn [numSectors dataSectors freeMap synchDisk].
  split; [done|]. split; [done|]. split; [lia|]. split; [|split].
  - intros i Hi.
    destruct (lookup_lt_is_Some_2 ss (Z.to_nat i)) as [s Hs]; [lia|].
    exists (Z.of_nat s). split; [|split].
    + apply load_Done. split; [lia | by apply Hds].
    + apply Test_lookup. rewrite Forall_forall in Hcl. apply Hcl.
      by apply list_elem_of_lookup_2 in Hs.
    + apply Test_lookup. rewrite Hfm, decide_True; [done|].
      by apply list_elem_of_lookup_2 in Hs.
  - intros i j Hij Hj Heq.
    destruct (lookup_lt_is_Some_2 ss (Z.to_nat i)) as [si Hsi]; [lia|].
    destruct (lookup_lt_is_Some_2 ss (Z.to_nat j)) as [sj Hsj]; [lia|].
    assert (load ds' i = Done (Z.of_nat si)) as Hli
      by (apply load_Done; split; [lia | by apply Hds]).
    assert (load ds' j = Done (Z.of_nat sj)) as Hlj
      by (apply load_Done; split; [lia | by apply Hds]).
    rewrite Hli, Hlj in Heq.
    assert (si = sj) as -> by (injection Heq; lia).
    pose proof (NoDup_lookup _ _ _ _ Hnd Hsi Hsj). lia.
  - intros s Hdiff.
    assert (0 ≤ s) as Hs.
    { destruct (Z.leb_spec 0 s) as [|Hneg]; [done|]. exfalso. apply Hdiff.
      unfold Test. by destruct (Z.leb_spec 0 s); [lia|]. }
    assert (Z.to_nat s ∈ ss) as Hin.
    { destruct (decide (Z.to_nat s ∈ ss)) as [|Hnin]; [done|]. exfalso.
      apply Hdiff. unfold Test. destruct (Z.leb_spec 0 s); [|done].
      by rewrite Hfm, decide_False. }
    apply list_elem_of_lookup_1 in Hin as [j Hj].
    pose proof (lookup_lt_Some _ _ _ Hj) as Hjlt.
    exists (Z.of_nat j). split; [lia|].
    apply load_Done. split; [lia|]. rewrite Nat2Z.id, (Hds _ _ Hj).
    f_equal. lia.
Qed.

Lemma Allocate_claims_clear_sectors_witness :
  ∃ h' w',
    Allocate (G:=nachos_geometry) 1 (newFileHeader (G:=nachos_geometry)) (blank_world 32) 500
    = Done (true, h', w')
    ∧ NumClear (freeMap w') = 32 - Z.max 0 (numSectors h').
Proof.
  destruct (Allocate_claims_clear_sectors (G:=nachos_geometry)
              ltac:(split; reflexivity) 0 (newFileHeader (G:=nachos_geometry)) (blank_world 32) 500)
    as (h' & w' & Hrun & _ & Hcount & _).
  - reflexivity.
  - lia.
  - vm_compute. discriminate.
  - vm_compute. discriminate.
  - vm_compute. discriminate.
  - exists h', w'. split; [exact Hrun | exact Hcount].
Defined.

(** X2.  After a successful [Allocate] of a size that the direct slots
    hold, [ByteToSector] maps every offset of the file to a sector that was
    clear before the call and is marked after it, and two offsets are
    mapped to the same sector exactly when they lie in the same block of
    [SectorSize] bytes. *)
Theorem ByteToSector_after_Allocate {G : Geometry} (HG : geometry_ok G)
    (fuel fuel' : nat) (this : FileHeader) (w : World) (n : Z)
    (h' : FileHeader) (w' : World) :
  header_wf this → n ≤ MaxFileSize → n ≤ (NumDirect - 1) * SectorSize →
  Allocate (S fuel) this w n = Done (true, h', w') →
  ∀ o1 o2, 0 ≤ o1 < n → 0 ≤ o2 < n →
    ∃ s1 s2,
      ByteToSector (S fuel') h' (synchDisk w') o1 = Done s1
      ∧ ByteToSector (S fuel') h' (synchDisk w') o2 = Done s2
      ∧ Test (freeMap w) s1 = false ∧ Test (freeMap w') s1 = true
      ∧ (s1 = s2 ↔ Z.quot o1 SectorSize = Z.quot o2 SectorSize).
Proof.
  intros Hwf Hmax Hdirect Hrun o1 o2 Ho1 Ho2.
  pose proof HG as [HS HK].
  assert (divRoundUp n SectorSize ≤ NumClear (freeMap w)) as Hclear.
  { apply (Allocate_Done_spec HG) in Hrun as (Hok & _); [|done].
    destruct (Z.le_gt_cases (divRoundUp n SectorSize) (NumClear (freeMap w)))
      as [|Hlt]; [done|].
    assert (true = false) by (apply Hok; right; by right). done. }
  destruct (Allocate_direct HG fuel this w n)
    as (ds' & fm' & ss & Hrun' & Hlen & Hl & _ & Hnd & Hcl & Hfm & Hds & _);
    try done; [lia|].
  rewrite Hrun' in Hrun. injection Hrun as <- <-.
  cbn [ByteToSector numSectors dataSectors freeMap synchDisk].
  assert (divRoundUp n SectorSize ≤ NumDirect - 1) as Hns
    by (by apply divRoundUp_le).
  assert ((divRoundUp n SectorSize <=? NumDirect - 1) = true) as ->
    by (apply Z.leb_le; lia).
  assert (∀ o, 0 ≤ o < n →
            0 ≤ Z.quot o SectorSize < divRoundUp n SectorSize) as Hblock.
  { intros o Ho. split; [apply Z.quot_pos; lia|].
    pose proof (divRoundUp_bounds n SectorSize HS) as Hb.
    apply Z.quot_lt_upper_bound; [lia | lia | nia]. }
  pose proof (Hblock _ Ho1) as Hb1. pose proof (Hblock _ Ho2) as Hb2.
  destruct (lookup_lt_is_Some_2 ss (Z.to_nat (Z.quot o1 SectorSize)))
    as [s1 Hs1]; [lia|].
  destruct (lookup_lt_is_Some_2 ss (Z.to_nat (Z.quot o2 SectorSize)))
    as [s2 Hs2]; [lia|].
  exists (Z.of_nat s1), (Z.of_nat s2).
  split; [apply load_Done; split; [lia | by apply Hds]|].
  split; [apply load_Done; split; [lia | by apply Hds]|].
  split.
  { apply Test_lookup. rewrite Forall_forall in Hcl. apply Hcl.
    by apply list_elem_of_lookup_2 in Hs1. }
  split.
  { apply Test_lookup. rewrite Hfm, decide_True; [done|].
    by apply list_elem_of_lookup_2 in Hs1. }
  split.
  - intros Heq. assert (s1 = s2) as -> by lia.
    pose proof (NoDup_lookup _ _ _ _ Hnd Hs1 Hs2). lia.
  - intros Heq. rewrite Heq in Hs1. rewrite Hs1 in Hs2.
    by injection Hs2 as ->.
Qed.

Lemma ByteToSector_after_Allocate_witness :
  ∃ s1 s2,
    ByteToSector (G:=nachos_geometry) 1 file_500 (synchDisk world_500) 0
    = Done s1
    ∧ ByteToSector (G:=nachos_geometry) 1 file_500 (synchDisk world_500) 499
      = Done s2
    ∧ Test (freeMap (blank_world 32)) s1 = false
    ∧ Test (freeMap world_500) s1 = true
    ∧ (s1 = s2 ↔ Z.quot 0 128 = Z.quot 499 128).
Proof.
  apply (ByteToSector_after_Allocate (G:=nachos_geometry)
           ltac:(split; reflexivity) 0 0 (newFileHeader (G:=nachos_geometry)) (blank_world 32) 500
           file_500 world_500).
  - reflexivity.
  - vm_compute. discriminate.
  - vm_compute. discriminate.
  - vm_compute. reflexivity.
  - lia.
  - lia.
Defined.



(** ** What [Deallocate] does to the free map *)

Lemma release_clears fm s fm' :
  release fm s = Done fm' →
  Test fm s = true ∧ Test fm' s = false
  ∧ length fm' = length fm
  ∧ NumClear fm' = NumClear fm + 1
  ∧ (∀ t, Test fm t = false → Test fm' t = false).
Proof.
  intros Hrel. pose proof (release_inv _ _ _ Hrel) as (Hs & Hm & ->).
  pose proof (lookup_lt_Some _ _ _ Hm) as Hlt.
  split; [by apply Test_true|]. split.
  { unfold Test. destruct (Z.leb_spec 0 s); [|done].
    by rewrite list_lookup_insert_eq. }
  split; [by rewrite length_insert|].
  split; [by apply NumClear_clear|].
  intros t. unfold Test. destruct (Z.leb_spec 0 t); [|done].
  destruct (decide (Z.to_nat s = Z.to_nat t)) as [<-|Hne].
  - by rewrite list_lookup_insert_eq.
  - by rewrite list_lookup_insert_ne.
Qed.

Lemma clear_loop_inv n : ∀ i ds fm fm',
  clear_loop n i ds fm = Done fm' →
  length fm' = length fm
  ∧ NumClear fm' = NumClear fm + Z.of_nat n
  ∧ (∀ t, Test fm t = false → Test fm' t = false)
  ∧ (∀ j, (j < n)%nat →
       ∃ s, load ds (i + Z.of_nat j) = Done s
            ∧ Test fm s = true ∧ Test fm' s = false).
Proof.
  induction n as [|n IH]; intros i ds fm fm'; cbn [clear_loop].
  - intros [= <-]. split; [done|]. split; [lia|]. split; [done|]. lia.
  - destruct (load ds i) as [s| |] eqn:EL; cbn; try done.
    destruct (release fm s) as [fm1| |] eqn:ER; cbn; try done.
    intros Hrun.
    apply release_clears in ER as (Hm & Hc & Hl1 & Hn1 & Hmono1).
    apply IH in Hrun as (Hl & Hn & Hmono & Hslots).
    split; [congruence|]. split; [lia|].
    split; [intros t Ht; by apply Hmono, Hmono1|].
    intros [|j] Hj.
    + exists s. rewrite Z.add_0_r. split; [done|]. split; [done|].
      by apply Hmono.
    + destruct (Hslots j) as (t & Hlt & Ht & Ht'); [lia|].
      exists t. replace (i + Z.of_nat (S j)) with (i + 1 + Z.of_nat j) by lia.
      split; [done|]. split; [|done].
      destruct (Test fm t) eqn:E; [done|]. by rewrite (Hmono1 _ E) in Ht.
Qed.

(** [Deallocate] leaves the disk alone and marks no sector. *)
Lemma Deallocate_inv {G : Geometry} (fuel : nat) : ∀ this w w',
  Deallocate fuel this w = Done w' →
  synchDisk w' = synchDisk w
  ∧ length (freeMap w') = length (freeMap w)
  ∧ NumClear (freeMap w) ≤ NumClear (freeMap w')
  ∧ (∀ t, Test (freeMap w) t = false → Test (freeMap w') t = false).
Proof.
  induction fuel as [|fuel IH]; intros this w w'; cbn [Deallocate]; [done|].
  destruct (numSectors this <=? NumDirect).
  - destruct (clear_loop _ _ _ _) as [fm| |] eqn:EC; cbn; try done.
    intros [= <-]. cbn.
    apply clear_loop_inv in EC as (Hl & Hn & Hmono & _).
    split; [done|]. split; [done|]. split; [lia | done].
  - destruct (clear_loop _ _ _ _) as [fm1| |] eqn:EC; cbn; try done.
    destruct (load _ _) as [s| |]; cbn; try done.
    destruct (fetch_indirect this _ s) as [child| |]; cbn; try done.
    destruct (Deallocate fuel _ _) as [w2| |] eqn:ED; cbn; try done.
    destruct (release _ _) as [fm3| |] eqn:ER; cbn; try done.
    intros [= <-]. cbn.
    apply clear_loop_inv in EC as (Hl1 & Hn1 & Hmono1 & _).
    apply IH in ED as (Hd2 & Hl2 & Hn2 & Hmono2). cbn in *.
    apply release_clears in ER as (_ & _ & Hl3 & Hn3 & Hmono3).
    split; [done|]. split; [congruence|]. split; [lia|].
    intros t Ht. by apply Hmono3, Hmono2, Hmono1.
Qed.

(** X4.  A call of [Deallocate] that returns has left the disk as it was
    and has marked no sector.  When the header has at most [NumDirect]
    sectors, each of the slots below [numSectors] named a marked sector,
    all of them are clear afterwards, and the count of clear sectors has
    grown by exactly [numSectors]. *)
Theorem Deallocate_releases {G : Geometry} (fuel : nat) (this : FileHeader)
    (w w' : World) :
  Deallocate fuel this w = Done w' →
  (synchDisk w' = synchDisk w
   ∧ length (freeMap w') = length (freeMap w)
   ∧ ∀ t, Test (freeMap w') t = true → Test (freeMap w) t = true)
  ∧ (numSectors this ≤ NumDirect →
     NumClear (freeMap w')
     = NumClear (freeMap w) + Z.max 0 (numSectors this)
     ∧ ∀ i, 0 ≤ i < numSectors this →
         ∃ s, load (dataSectors this) i = Done s
              ∧ Test (freeMap w) s = true ∧ Test (freeMap w') s = false).
Proof.
  intros Hrun. split.
  - apply Deallocate_inv in Hrun as (Hd & Hl & _ & Hmono).
    split; [done|]. split; [done|]. intros t Ht.
    destruct (Test (freeMap w) t) eqn:E; [done|].
    by rewrite (Hmono _ E) in Ht.
  - intros Hdirect. destruct fuel as [|fuel]; [done|].
    cbn [Deallocate] in Hrun.
    assert ((numSectors this <=? NumDirect) = true) as Hb
      by (by apply Z.leb_le).
    rewrite Hb in Hrun.
    destruct (clear_loop _ _ _ _) as [fm| |] eqn:EC; cbn in Hrun; try done.
    injection Hrun as <-. cbn.
    apply clear_loop_inv in EC as (_ & Hn & _ & Hslots).
    split; [lia|]. intros i Hi.
    destruct (Hslots (Z.to_nat i)) as (s & Hs); [lia|].
    exists s. by replace (0 + Z.of_nat (Z.to_nat i)) with i in Hs by lia.
Qed.

Lemma Deallocate_releases_witness :
  NumClear (freeMap (blank_world 32))
  = NumClear (freeMap world_500) + Z.max 0 (numSectors file_500).
Proof.
  apply (Deallocate_releases (G:=nachos_geometry) 1 file_500 world_500
           (blank_world 32)).
  - vm_compute. reflexivity.
  - vm_compute. discriminate.
Defined.

(** X5.  A header with at least one sector cannot be deallocated twice:
    when [Deallocate] has returned, a second [Deallocate] of the same header
    on the map that the first one left stops on the first [ASSERT]. *)
Theorem Deallocate_twice_stops {G : Geometry} (HG : geometry_ok G)
    (fuel fuel' : nat) (this : FileHeader) (w w' : World) :
  0 < numSectors this →
  Deallocate fuel this w = Done w' →
  Deallocate (S fuel') this w' = Fault.
Proof.
  intros Hpos Hrun. destruct HG as [HS HK].
  assert (∀ n fm fm',
            clear_loop n 0 (dataSectors this) fm = Done fm' → (0 < n)%nat →
            ∀ fm'', (∀ t, Test fm' t = false → Test fm'' t = false) →
              clear_loop n 0 (dataSectors this) fm'' = Fault) as Hhead.
  { intros [|n] fm fm' Hc Hn fm'' Hmono; [lia|].
    apply clear_loop_inv in Hc as (_ & _ & _ & Hslots).
    destruct (Hslots 0%nat) as (s & Hl & _ & Hs); [lia|].
    cbn [clear_loop]. rewrite Z.add_0_r in Hl. rewrite Hl. cbn.
    unfold release. by rewrite (Hmono _ Hs). }
  destruct fuel as [|fuel]; [done|].
  cbn [Deallocate] in Hrun |- *.
  destruct (numSectors this <=? NumDirect).
  - destruct (clear_loop _ _ _ (freeMap w)) as [fm| |] eqn:EC; cbn in Hrun;
      try done.
    injection Hrun as <-. cbn.
    by rewrite (Hhead _ _ _ EC ltac:(lia) fm).
  - destruct (clear_loop _ _ _ (freeMap w)) as [fm1| |] eqn:EC; cbn in Hrun;
      try done.
    destruct (load _ _) as [s| |]; cbn in Hrun; try done.
    destruct (fetch_indirect this _ s) as [child| |]; cbn in Hrun; try done.
    destruct (Deallocate fuel _ _) as [w2| |] eqn:ED; cbn in Hrun; try done.
    destruct (release _ _) as [fm3| |] eqn:ER; cbn in Hrun; try done.
    injection Hrun as <-. cbn.
    apply Deallocate_inv in ED as (_ & _ & _ & Hmono2). cbn in Hmono2.
    apply release_clears in ER as (_ & _ & _ & _ & Hmono3).
    rewrite (Hhead _ _ _ EC ltac:(lia) fm3); [done|].
    intros t Ht. by apply Hmono3, Hmono2.
Qed.

Lemma Deallocate_twice_stops_witness :
  Deallocate (G:=nachos_geometry) 1 file_500 (blank_world 32) = Fault.
Proof.
  apply (Deallocate_twice_stops (G:=nachos_geometry)
           ltac:(split; reflexivity) 1 0 file_500 world_500 (blank_world 32)).
  - reflexivity.
  - vm_compute. reflexivity.
Defined.

(** ** What [Allocate] and [Extend] leave alone *)

Lemma Find_unmarked fm : Test fm (Find fm).1 = false.
Proof.
  unfold Find. destruct (first_clear fm) as [i|] eqn:E; cbn; [|done].
  apply first_clear_Some in E as [Hi _]. by apply Test_lookup.
Qed.

Lemma WriteBack_other {G : Geometry} h d s t :
  s ≠ t → ReadSector (WriteBack h d s) t = ReadSector d t.
Proof.
  intros Hne. unfold WriteBack, WriteSector, ReadSector.
  by rewrite lookup_insert_ne.
Qed.

Lemma Allocate_frame {G : Geometry} (fuel : nat) : ∀ this w n ok h' w',
  Allocate fuel this w n = Done (ok, h', w') →
  NumClear (freeMap w') ≤ NumClear (freeMap w)
  ∧ ∀ s, Test (freeMap w) s = true →
      Test (freeMap w') s = true
      ∧ ReadSector (synchDisk w') s = ReadSector (synchDisk w) s.
Proof.
  induction fuel as [|fuel IH]; intros this w n ok h' w'; cbn [Allocate];
    [done|].
  destruct (gtu n MaxFileSize); [intros [= <- <- <-]; by split|].
  destruct (NumClear (freeMap w) <? _); [intros [= <- <- <-]; by split|].
  pose proof (NumClear_nonneg (freeMap w)) as Hnn.
  destruct (gtu n ((NumDirect - 1) * SectorSize)).
  - destruct (find_loop _ _ _ _) as [[ds fm1]| |] eqn:EL; cbn; try done.
    apply find_loop_inv in EL as (_ & _ & _ & Hn1 & _ & _ & Hm1).
    destruct (Allocate fuel _ _ _) as [[[ok1 child] w2]| |] eqn:EA; cbn;
      try done.
    apply IH in EA as (Hn2 & Hm2). cbn in Hn2, Hm2.
    destruct ok1.
    + pose proof (Find_unmarked (freeMap w2)) as Hun.
      pose proof (Find_NumClear (freeMap w2)) as Hn3.
      pose proof (Find_keeps_marks (freeMap w2)) as Hm3.
      destruct (Find (freeMap w2)) as [s fm3]. cbn in Hun, Hn3, Hm3.
      destruct (store ds _ s) as [ds1| |]; cbn; try done.
      intros [= <- <- <-]. cbn. split; [lia|].
      intros t Ht. destruct (Hm2 t (Hm1 t Ht)) as [Ht2 Hd2].
      split; [by apply Hm3|].
      rewrite WriteBack_other; [done|]. intros ->. congruence.
    + intros [= <- <- <-]. split; [lia|].
      intros t Ht. by apply Hm2, Hm1.
  - destruct (find_loop _ _ _ _) as [[ds fm1]| |] eqn:EL; cbn; try done.
    apply find_loop_inv in EL as (_ & _ & _ & Hn1 & _ & _ & Hm1).
    intros [= <- <- <-]. cbn. split; [lia|].
    intros t Ht. split; [by apply Hm1 | done].
Qed.


(** X6.  [Allocate], whatever it returns, never takes a sector that is in
    use: a sector that was marked before the call is still marked after it,
    and the disk holds for it what it held before.  The count of clear
    sectors does not grow. *)
Theorem Allocate_spares_marked_sectors {G : Geometry} (fuel : nat)
    (this : FileHeader) (w : World) (n : Z) (ok : bool) (h' : FileHeader)
    (w' : World) :
  Allocate fuel this w n = Done (ok, h', w') →
  NumClear (freeMap w') ≤ NumClear (freeMap w)
  ∧ ∀ s, Test (freeMap w) s = true →
      Test (freeMap w') s = true
      ∧ ReadSector (synchDisk w') s = ReadSector (synchDisk w) s.
Proof.
  intros Hrun. by apply (Allocate_frame fuel this w n ok h' w').
Qed.

Lemma Allocate_spares_marked_sectors_witness :
  Test (freeMap world_1000) 2 = true
  ∧ ReadSector (G:=nachos_geometry) (synchDisk world_1000) 2
    = ReadSector (G:=nachos_geometry) (synchDisk world_500) 2.
Proof.
  apply (Allocate_spares_marked_sectors (G:=nachos_geometry) 1 (newFileHeader (G:=nachos_geometry))
           world_500 500 true
           (mkFileHeader 500 4 (seqZ 4 4 ++ replicate 26 0) None) world_1000).
  - vm_compute. reflexivity.
  - reflexivity.
Defined.

(** ** [Extend] *)

(** X7.  [Extend], called with a size that is not negative, returns FALSE
    exactly when the new count of sectors is above [MaxFileSize] or above
    the count of clear sectors of the map; it then leaves the header, the
    object behind [indirect], the free map and the disk as they were.
    Past these two tests no call of [Extend] with such a size that
    returns, returns FALSE. *)
Theorem Extend_refusal {G : Geometry} (HG : geometry_ok G) (fuel : nat)
    (this : FileHeader) (w : World) (n : Z) (ok : bool) (h' : FileHeader)
    (w' : World) :
  0 ≤ n →
  Extend fuel this w n = Done (ok, h', w') →
  (ok = false ↔ MaxFileSize < divRoundUp n SectorSize
                ∨ NumClear (freeMap w) < divRoundUp n SectorSize)
  ∧ (ok = false → h' = this ∧ w' = w)
  ∧ (ok = true →
     FileLength h' = n ∧ numSectors h' = divRoundUp n SectorSize).
Proof.
  intros Hn0 Hrun.
  pose proof (Extend_fails_iff HG fuel this w n ok h' w' Hn0 Hrun) as Hiff.
  split; [done|]. split.
  - intros Hok. apply Hiff in Hok.
    destruct fuel as [|fuel]; [done|].
    rewrite (Extend_checks fuel this w n Hok) in Hrun.
    by injection Hrun as _ <- <-.
  - by apply Extend_inv in Hrun as (_ & _ & _ & Hset & _).
Qed.

Lemma Extend_refusal_witness :
  (false = false ↔ MaxFileSize (Geometry:=nachos_geometry) < divRoundUp 4000 128
                   ∨ NumClear (freeMap world_500) < divRoundUp 4000 128)
  ∧ (false = false → file_500 = file_500 ∧ world_500 = world_500)
  ∧ (false = true →
     FileLength file_500 = 4000 ∧ numSectors file_500 = divRoundUp 4000 128).
Proof.
  apply (Extend_refusal (G:=nachos_geometry) ltac:(split; reflexivity) 1
           file_500 world_500 4000 false file_500 world_500).
  - lia.
  - vm_compute. reflexivity.
Defined.

(** X8.  [Extend] keeps the sectors the file has: when it returns, the
    direct slots below the old [numSectors] hold what they held.  As long
    as the header has at most [NumDirect-1] sectors before and after the
    call, [ByteToSector] therefore answers as before for every offset
    within the old sectors. *)
Theorem Extend_keeps_sectors {G : Geometry} (HG : geometry_ok G) (fuel : nat)
    (this : FileHeader) (w : World) (n : Z) (ok : bool) (h' : FileHeader)
    (w' : World) :
  Extend fuel this w n = Done (ok, h', w') →
  (∀ i, 0 ≤ i < numSectors this → i < NumDirect - 1 →
     load (dataSectors h') i = load (dataSectors this) i)
  ∧ (numSectors this ≤ NumDirect - 1 → numSectors h' ≤ NumDirect - 1 →
     ∀ fuel1 fuel2 offset, 0 ≤ offset < numSectors this * SectorSize →
       ByteToSector (S fuel1) h' (synchDisk w') offset
       = ByteToSector (S fuel2) this (synchDisk w) offset).
Proof.
  intros Hrun. destruct HG as [HS HK].
  assert (∀ i, 0 ≤ i < numSectors this → i < NumDirect - 1 →
            load (dataSectors h') i = load (dataSectors this) i) as Hslots.
  { revert Hrun. destruct fuel as [|fuel]; cbn [Extend]; [done|].
    destruct (gtu _ MaxFileSize); [by intros [= <- <- <-]|].
    destruct (NumClear (freeMap w) <? _); [by intros [= <- <- <-]|].
    destruct (gtu n ((NumDirect - 1) * SectorSize)).
    - destruct (numBytes this <=? _).
      + destruct (find_loop _ _ _ _) as [[ds fm1]| |] eqn:EL; cbn; try done.
        apply find_loop_inv in EL as (_ & _ & _ & _ & _ & Hframe & _).
        destruct (Allocate fuel _ _ _) as [[[ok1 child] w2]| |]; cbn;
          try done.
        destruct (Find (freeMap w2)) as [s fm3].
        destruct (store ds _ s) as [ds1| |] eqn:ES; cbn; try done.
        apply store_inv in ES as [Hk ->].
        intros [= <- <- <-] i Hi HiK. cbn.
        apply load_frame; [lia|].
        rewrite list_lookup_insert_ne by lia. apply Hframe. lia.
      + destruct (load _ _) as [s| |]; cbn; try done.
        destruct (fetch_indirect this _ s) as [child0| |]; cbn; try done.
        destruct (Extend fuel _ _ _) as [[[[] child] w1]| |]; cbn; try done;
          by intros [= <- <- <-].
    - destruct (find_loop _ _ _ _) as [[ds fm1]| |] eqn:EL; cbn; try done.
      apply find_loop_inv in EL as (_ & _ & _ & _ & _ & Hframe & _).
      intros [= <- <- <-] i Hi HiK. cbn.
      apply load_frame; [lia|]. apply Hframe. lia. }
  split; [done|].
  intros Hold Hnew fuel1 fuel2 offset Hoff. cbn [ByteToSector].
  assert ((numSectors h' <=? NumDirect - 1) = true) as ->
    by (by apply Z.leb_le).
  assert ((numSectors this <=? NumDirect - 1) = true) as ->
    by (by apply Z.leb_le).
  apply Hslots; [|nia]. split; [apply Z.quot_pos; lia|].
  apply Z.quot_lt_upper_bound; lia.
Qed.

Lemma Extend_keeps_sectors_witness :
  load (dataSectors file_1000) 3 = load (dataSectors file_500) 3.
Proof.
  apply (proj1 (Extend_keeps_sectors (G:=nachos_geometry)
                  ltac:(split; reflexivity) 1 file_500 world_500 1000
                  true file_1000 world_1000 ltac:(vm_compute; reflexivity))).
  - split; [lia | reflexivity].
  - reflexivity.
Defined.

Lemma find_loop_app n m : ∀ i ds fm,
  find_loop (n + m) i ds fm
  = '(ds1, fm1) ← find_loop n i ds fm; find_loop m (i + Z.of_nat n) ds1 fm1.
Proof.
  induction n as [|n IH]; intros i ds fm; cbn [find_loop Nat.add].
  - cbn. by rewrite Z.add_0_r.
  - destruct (Find fm) as [s fm1].
    destruct (store ds i s) as [ds1| |]; cbn; try done.
    rewrite IH. by replace (i + 1 + Z.of_nat n) with (i + Z.of_nat (S n)) by lia.
Qed.

Lemma divRoundUp_le_self n s : 0 < s → 0 ≤ n → 0 ≤ divRoundUp n s ≤ n.
Proof.
  intros Hs Hn. unfold divRoundUp.
  destruct (Z.ltb_spec 0 (Z.rem n s)); nia.
Qed.

(** X9.  Growing in two steps gives what growing in one step gives: for
    sizes [0 <= a <= b] of which the first fits the direct slots,
    [Allocate(a)] followed by [Extend(b)] leaves the header, the free map
    and the disk that [Allocate(b)] leaves, whether or not the second size
    needs chained headers, provided the map has as many clear sectors as
    the tests of the two calls ask for. *)
Theorem Allocate_then_Extend {G : Geometry} (HG : geometry_ok G)
    (fuel1 fuel : nat) (this : FileHeader) (w : World) (a b : Z) :
  header_wf this → 0 ≤ a → a ≤ b →
  a ≤ (NumDirect - 1) * SectorSize → b ≤ MaxFileSize →
  (Z.to_nat b < S fuel)%nat →
  divRoundUp a SectorSize + divRoundUp b SectorSize ≤ NumClear (freeMap w) →
  ∃ h1 w1 h2 w2,
    Allocate (S fuel1) this w a = Done (true, h1, w1)
    ∧ Extend (S fuel) h1 w1 b = Done (true, h2, w2)
    ∧ Allocate (S fuel) this w b = Done (true, h2, w2).
Proof.
  intros Hwf Ha Hab Hdirect Hmax Hfuel Hclear. pose proof HG as [HS HK].
  pose proof Hwf as Hlen. unfold header_wf in Hlen.
  pose proof (divRoundUp_le_self a SectorSize HS Ha) as Hsa.
  pose proof (divRoundUp_le_self b SectorSize HS ltac:(lia)) as Hsb.
  pose proof (divRoundUp_mono a b SectorSize HS Hab) as Hmono.
  pose proof (divRoundUp_le a SectorSize (NumDirect - 1) HS) as Hna.
  pose proof (divRoundUp_le b SectorSize (NumDirect - 1) HS) as Hnb.
  set (sa := divRoundUp a SectorSize) in *.
  set (sb := divRoundUp b SectorSize) in *.
  destruct (find_loop_spec (Z.to_nat sa) 0 (dataSectors this) (freeMap w))
    as (ds1 & fm1 & Hrun1 & Hl1 & Hfl1 & Hn1 & _); [lia | lia |].
  assert (Allocate (S fuel1) this w a
          = Done (true, mkFileHeader a sa ds1 (indirect this),
                  mkWorld fm1 (synchDisk w)))
    as Hfirst.
  { cbn [Allocate numSectors with_size dataSectors].
    assert (gtu a MaxFileSize = false) as -> by (unfold gtu; lia).
    fold sa.
    assert ((NumClear (freeMap w) <? sa) = false) as -> by lia.
    assert (gtu a ((NumDirect - 1) * SectorSize) = false) as -> by (unfold gtu; lia).
    by rewrite Hrun1. }
  enough (∃ h2 w2,
            Extend (S fuel) (mkFileHeader a sa ds1 (indirect this))
                   (mkWorld fm1 (synchDisk w)) b = Done (true, h2, w2)
            ∧ Allocate (S fuel) this w b = Done (true, h2, w2))
    as (h2 & w2 & Hsecond & Hdirectly) by (by eexists _, _, h2, w2).
  clear Hfirst.
  cbn [Extend Allocate numBytes numSectors dataSectors freeMap synchDisk
       with_size].
  fold sb.
  assert (gtu sb MaxFileSize = false) as -> by (unfold gtu; lia).
  assert ((NumClear fm1 <? sb) = false) as -> by lia.
  assert (gtu b MaxFileSize = false) as -> by (unfold gtu; lia).
  assert ((NumClear (freeMap w) <? sb) = false) as -> by lia.
  destruct (gtu_cases b ((NumDirect - 1) * SectorSize))
    as [[-> Hbig]|[-> Hsmall]].
  - (* the second size needs a chained header *)
    assert ((a <=? (NumDirect - 1) * SectorSize) = true) as ->
      by (by apply Z.leb_le).
    destruct (find_loop_spec (Z.to_nat (NumDirect - 1 - sa)) sa ds1 fm1)
      as (ds2 & fm2 & Hrun2 & Hl2 & Hfl2 & Hn2 & _); [lia | lia |].
    replace (Z.to_nat (NumDirect - 1))
      with (Z.to_nat sa + Z.to_nat (NumDirect - 1 - sa))%nat by lia.
    rewrite find_loop_app, Hrun1. cbn [mbind outcome_bind].
    replace (0 + Z.of_nat (Z.to_nat sa)) with sa by lia.
    rewrite Hrun2. cbn [mbind outcome_bind].
    set (rest := b - (NumDirect - 1) * SectorSize).
    destruct (Allocate_spec HG fuel newFileHeader (mkWorld fm2 (synchDisk w))
                rest)
      as (ok & child & w3 & -> & _ & _ & Hok & _);
      [apply newFileHeader_wf; lia | subst rest; nia |].
    assert (ok = true) as ->.
    { destruct ok; [done|]. exfalso.
      pose proof (divRoundUp_sub b SectorSize (NumDirect - 1) HS) as Hsub.
      fold rest sb in Hsub. cbn [freeMap] in Hok.
      destruct Hok as [Hok _]. destruct (Hok eq_refl) as [Hbad|[Hbad|Hbad]];
        subst rest; nia. }
    cbn [mbind outcome_bind]. destruct (Find (freeMap w3)) as [s fm4].
    rewrite store_Done by lia. cbn [mbind outcome_bind with_sectors with_size
      numBytes numSectors].
    by eexists _, _.
  - (* both sizes fit the direct slots *)
    destruct (find_loop_spec (Z.to_nat (sb - sa)) sa ds1 fm1)
      as (ds2 & fm2 & Hrun2 & _); [lia | lia |].
    rewrite Hrun2. cbn [mbind outcome_bind].
    replace (Z.to_nat sb) with (Z.to_nat sa + Z.to_nat (sb - sa))%nat by lia.
    rewrite find_loop_app, Hrun1. cbn [mbind outcome_bind].
    replace (0 + Z.of_nat (Z.to_nat sa)) with sa by lia.
    rewrite Hrun2. cbn [mbind outcome_bind with_sectors with_size numBytes
      numSectors].
    by eexists _, _.
Qed.

Lemma Allocate_then_Extend_witness :
  ∃ h1 w1 h2 w2,
    Allocate (G:=nachos_geometry) 1 (newFileHeader (G:=nachos_geometry))
             (blank_world 64) 500
    = Done (true, h1, w1)
    ∧ Extend (G:=nachos_geometry) 3841 h1 w1 3840 = Done (true, h2, w2)
    ∧ Allocate (G:=nachos_geometry) 3841 (newFileHeader (G:=nachos_geometry))
               (blank_world 64) 3840
      = Done (true, h2, w2).
Proof.
  apply (Allocate_then_Extend (G:=nachos_geometry) ltac:(split; reflexivity)
           0 3840 (newFileHeader (G:=nachos_geometry)) (blank_world 64)
           500 3840).
  - reflexivity.
  - lia.
  - lia.
  - vm_compute. discriminate.
  - vm_compute. discriminate.
  - lia.
  - vm_compute. discriminate.
Defined.

(** ** Headers on the disk *)

Lemma read_int_app mem rest i :
  (4 * i + 4 ≤ length mem)%nat → read_int (mem ++ rest) i = read_int mem i.
Proof.
  intros Hlen. unfold read_int.
  rewrite drop_app_le by lia. rewrite take_app_le; [done|].
  rewrite length_drop. lia.
Qed.

(** X10.  [FetchFrom] replaces the counters and the array of the object:
    when a header is no larger than a sector, what they held before the
    call has no part in what they hold after it.  It does not restore the
    pointer [indirect]: the object keeps the pointer it had, whatever the
    header it has fetched says about chained headers. *)
Theorem FetchFrom_replaces_stored_fields {G : Geometry} (Hfit : header_fits G)
    (this other : FileHeader) (d : Disk) (sector : Z) :
  0 ≤ NumDirect →
  stored (FetchFrom this d sector) = stored (FetchFrom other d sector)
  ∧ indirect (FetchFrom this d sector) = indirect this.
Proof.
  intros HK. split; [|done].
  unfold header_fits in Hfit. unfold FetchFrom, stored.
  pose proof (sector_bytes_length (default [] (d !! sector))) as Hlen.
  fold (ReadSector d sector) in Hlen.
  assert (∀ rest i, (i < 2 + Z.to_nat NumDirect)%nat →
            read_int (ReadSector d sector ++ rest) i
            = read_int (ReadSector d sector) i) as Hread
    by (intros rest i Hi; apply read_int_app; lia).
  unfold header_of_bytes. cbn [numBytes numSectors dataSectors].
  rewrite !(Hread _ 0%nat), !(Hread _ 1%nat) by lia. f_equal.
  apply Forall_fmap_ext_1, Forall_forall. intros i Hi%elem_of_seq.
  rewrite !Hread by lia. done.
Qed.

Lemma FetchFrom_replaces_stored_fields_witness :
  stored (FetchFrom (G:=nachos_geometry) file_3840 (synchDisk world_3840) 30)
  = stored (FetchFrom (G:=nachos_geometry) file_128 (synchDisk world_3840) 30)
  ∧ indirect (FetchFrom (G:=nachos_geometry) file_3840 (synchDisk world_3840) 30)
    = indirect file_3840.
Proof.
  apply (FetchFrom_replaces_stored_fields (G:=nachos_geometry)
           ltac:(vm_compute; discriminate) file_3840 file_128
           (synchDisk world_3840) 30).
  vm_compute. discriminate.
Defined.

(** X11.  [FetchFrom] yields the counters and the array of the header that
    was last written to the sector: of two [WriteBack]s, the second one is
    read back when the two sectors are the same, and the first one when
    they differ. *)
Theorem FetchFrom_last_write {G : Geometry} (Hfit : header_fits G)
    (h1 h2 fresh : FileHeader) (d : Disk) (s1 s2 : Z) :
  header_wf h1 → header_ints h1 → header_wf h2 → header_ints h2 →
  stored (FetchFrom fresh (WriteBack h2 (WriteBack h1 d s1) s2) s1)
  = stored (if decide (s1 = s2) then h2 else h1).
Proof.
  intros Hwf1 Hi1 Hwf2 Hi2. destruct (decide (s1 = s2)) as [->|Hne].
  - by rewrite FetchFrom_WriteBack.
  - rewrite FetchFrom_WriteBack_ne by done. by rewrite FetchFrom_WriteBack.
Qed.

Lemma FetchFrom_last_write_witness :
  stored (FetchFrom (G:=nachos_geometry) file_128
            (WriteBack (G:=nachos_geometry) file_1000
               (WriteBack (G:=nachos_geometry) file_500 ∅ 7) 9) 7)
  = stored (if decide (7 = 9) then file_1000 else file_500).
Proof.
  apply (FetchFrom_last_write (G:=nachos_geometry)
           ltac:(vm_compute; discriminate) file_500 file_1000 file_128 ∅ 7 9).
  - reflexivity.
  - unfold header_ints, int32; simpl; repeat split; try lia.
    repeat (apply Forall_cons; split; [lia|]). by apply Forall_nil.
  - reflexivity.
  - unfold header_ints, int32; simpl; repeat split; try lia.
    repeat (apply Forall_cons; split; [lia|]). by apply Forall_nil.
Defined.

(** X12.  The length of a file survives on the disk: after a successful
    [Allocate] or [Extend] to [fileSize] bytes and a [WriteBack] of the
    header to a sector, [FileLength] of any object that fetches the header
    from that sector is [fileSize]. *)
Theorem FileLength_persisted {G : Geometry} (HS : 0 < SectorSize)
    (Hfit : header_fits G) (fuel : nat) (this : FileHeader) (w : World)
    (n : Z) (h' : FileHeader) (w' : World) (other : FileHeader) (sector : Z) :
  header_wf this → header_ints this → int32 n →
  Z.of_nat (length (freeMap w)) ≤ 2147483648 →
  Allocate fuel this w n = Done (true, h', w')
  ∨ Extend fuel this w n = Done (true, h', w') →
  FileLength h' = n
  ∧ FileLength (FetchFrom other (WriteBack h' (synchDisk w') sector) sector)
    = n.
Proof.
  intros Hwf Hints Hn Hlen Hrun.
  destruct (growth_keeps_header HS fuel this w n true h' w')
    as [Hwf' Hints']; try done.
  rewrite FetchFrom_WriteBack by done.
  assert (FileLength h' = n) as Hfl; [|by split].
  destruct Hrun as [Hrun|Hrun].
  - by apply Allocate_true_fields in Hrun as [? _].
  - apply Extend_inv in Hrun as (_ & _ & _ & Hset & _).
    by destruct Hset.
Qed.

Lemma FileLength_persisted_witness :
  FileLength file_1000 = 1000
  ∧ FileLength (FetchFrom (G:=nachos_geometry) file_128
                  (WriteBack (G:=nachos_geometry) file_1000
                     (synchDisk world_1000) 12) 12)
    = 1000.
Proof.
  apply (FileLength_persisted (G:=nachos_geometry) eq_refl
           ltac:(vm_compute; discriminate) 1 file_500 world_500 1000
           file_1000 world_1000 file_128 12).
  - reflexivity.
  - unfold header_ints, int32; simpl; repeat split; try lia.
    repeat (apply Forall_cons; split; [lia|]). by apply Forall_nil.
  - split; [discriminate | reflexivity].
  - vm_compute. discriminate.
  - right. vm_compute. reflexivity.
Defined.

(** X13.  [Allocate] refuses a negative size: compared with the size
    [MaxFileSize], a negative [int] is a large unsigned value, so the call
    returns FALSE at its first test and leaves the header, the free map
    and the disk as they were.  A size of zero is not refused: the call
    returns TRUE, records a length of zero and no sector, and claims no
    sector. *)
Theorem Allocate_nonpositive_size {G : Geometry} (HG : geometry_ok G)
    (fuel : nat) (this : FileHeader) (w : World) (n : Z) :
  0 ≤ MaxFileSize → n ≤ 0 →
  Allocate (S fuel) this w n
  = if n <? 0 then Done (false, this, w)
    else Done (true,
               mkFileHeader 0 0 (dataSectors this) (indirect this), w).
Proof.
  intros Hmax Hn. destruct HG as [HS HK].
  cbn [Allocate numSectors with_size dataSectors].
  destruct (Z.ltb_spec n 0).
  - by assert (gtu n MaxFileSize = true) as -> by (unfold gtu; lia).
  - assert (n = 0) as -> by lia.
    pose proof (NumClear_nonneg (freeMap w)) as Hnn.
    assert (divRoundUp 0 SectorSize = 0) as ->.
    { unfold divRoundUp. rewrite Z.quot_0_l, Z.rem_0_l by lia. done. }
    assert (gtu 0 MaxFileSize = false) as -> by (unfold gtu; lia).
    assert ((NumClear (freeMap w) <? 0) = false) as -> by lia.
    assert (gtu 0 ((NumDirect - 1) * SectorSize) = false) as ->
      by (unfold gtu; nia).
    cbn. by destruct w.
Qed.

Lemma Allocate_nonpositive_size_witness :
  Allocate (G:=nachos_geometry) 1 file_500 world_500 (-200)
  = Done (false, file_500, world_500)
  ∧ Allocate (G:=nachos_geometry) 1 file_500 world_500 0
    = Done (true, mkFileHeader 0 0 (dataSectors file_500) None, world_500).
Proof.
  split.
  - apply (Allocate_nonpositive_size (G:=nachos_geometry)
             ltac:(split; reflexivity) 0 file_500 world_500 (-200)).
    + vm_compute. discriminate.
    + lia.
  - apply (Allocate_nonpositive_size (G:=nachos_geometry)
             ltac:(split; reflexivity) 0 file_500 world_500 0).
    + vm_compute. discriminate.
    + lia.
Defined.

(** ** [Print] *)

Lemma printed_render (bs : list Z) :
  omap printed (render <$> bs) = (λ c, c mod 256) <$> bs
  ∧ filter ends_line (render <$> bs) = [].
Proof.
  induction bs as [|c bs [IH1 IH2]]; [done|].
  rewrite !fmap_cons. split.
  - cbn [omap list_omap]. fold (omap printed (render <$> bs)).
    rewrite IH1. unfold render.
    by destruct ((32 <=? c mod 256) && (c mod 256 <=? 126)).
  - rewrite filter_cons, IH2. unfold render.
    by destruct ((32 <=? c mod 256) && (c mod 256 <=? 126)).
Qed.

Lemma print_blocks_Done n : ∀ i ds,
  0 ≤ i → i + Z.of_nat n ≤ Z.of_nat (length ds) →
  print_blocks n i ds = Done (OutBlock <$> take n (drop (Z.to_nat i) ds)).
Proof.
  induction n as [|n IH]; intros i ds Hi Hlen; cbn [print_blocks]; [done|].
  destruct (lookup_lt_is_Some_2 ds (Z.to_nat i)) as [s Hs]; [lia|].
  assert (load ds i = Done s) as -> by (by apply load_Done).
  cbn. rewrite IH by lia. cbn.
  rewrite (drop_S _ _ _ Hs). cbn.
  by replace (Z.to_nat (i + 1)) with (S (Z.to_nat i)) by lia.
Qed.

Lemma print_contents_Done {G : Geometry} n : ∀ i k this d,
  0 ≤ i → i + Z.of_nat n ≤ Z.of_nat (length (dataSectors this)) →
  ∃ contents,
    print_contents n i k this d = Done contents
    ∧ omap printed contents
      = (λ c, c mod 256)
        <$> take (Z.to_nat (numBytes this - k))
              (flat_map (ReadSector d)
                 (take n (drop (Z.to_nat i) (dataSectors this))))
    ∧ length (filter ends_line contents) = n.
Proof.
  induction n as [|n IH]; intros i k this d Hi Hlen; cbn [print_contents].
  - exists []. split; [done|]. split; [|done].
    rewrite take_0. cbn [flat_map]. by rewrite take_nil.
  - destruct (lookup_lt_is_Some_2 (dataSectors this) (Z.to_nat i)) as [s Hs];
      [lia|].
    assert (load (dataSectors this) i = Done s) as -> by (by apply load_Done).
    cbn.
    set (R := ReadSector d s).
    set (m := Z.to_nat (numBytes this - k)).
    destruct (IH (i + 1) (k + Z.of_nat (length (take m R))) this d)
      as (rest & -> & Hbytes & Hlines); [lia | lia |].
    cbn. eexists. split; [done|].
    destruct (printed_render (take m R)) as [Hpr Hnl].
    split.
    + rewrite omap_app, Hpr. cbn. rewrite Hbytes.
      rewrite (drop_S _ _ _ Hs). cbn. fold R.
      replace (Z.to_nat (i + 1)) with (S (Z.to_nat i)) by lia.
      rewrite take_app, fmap_app. f_equal. f_equal. f_equal.
      rewrite length_take. lia.
    + rewrite filter_app, Hnl, app_nil_l, filter_cons_True by done.
      cbn [length]. by rewrite Hlines.
Qed.

Lemma print_contents_chars {G : Geometry} n : ∀ i k this d contents,
  print_contents n i k this d = Done contents →
  ∀ c, OutChar c ∈ contents → 32 ≤ c ≤ 126.
Proof.
  induction n as [|n IH]; intros i k this d contents; cbn [print_contents].
  - intros [= <-] c Hc. by apply elem_of_nil in Hc.
  - destruct (load _ _) as [s| |]; cbn; try done.
    destruct (print_contents n _ _ _ _) as [rest| |] eqn:ER; cbn; try done.
    intros [= <-] c Hc. apply elem_of_app in Hc as [Hc|Hc].
    + apply list_elem_of_fmap in Hc as (b & Hb & _). unfold render in Hb.
      destruct (Z.leb_spec 32 (b mod 256)), (Z.leb_spec (b mod 256) 126);
        cbn in Hb; try done.
      injection Hb as ->. lia.
    + apply elem_of_cons in Hc as [Hc|Hc]; [done|]. by apply (IH _ _ _ _ _ ER).
Qed.

(** X14.  [Print] of a header of at most [NumDirect-1] sectors prints the
    length of the file, the sectors named by the slots below [numSectors],
    and then bytes of these sectors, in order, one line for each sector:
    the bytes printed are the first [numBytes] bytes of the sectors, so
    nothing beyond the end of the file is shown.  A byte is printed as a
    character only when it is between 32 and 126. *)
Theorem Print_direct {G : Geometry} (fuel : nat) (this : FileHeader)
    (d : Disk) :
  header_wf this → numSectors this ≤ NumDirect - 1 →
  let blocks := take (Z.to_nat (numSectors this)) (dataSectors this) in
  ∃ contents,
    Print (S fuel) this d
    = Done (OutFileSize (FileLength this)
            :: (OutBlock <$> blocks) ++ OutContents :: contents)
    ∧ omap printed contents
      = (λ c, c mod 256)
        <$> take (Z.to_nat (numBytes this)) (flat_map (ReadSector d) blocks)
    ∧ length (filter ends_line contents) = length blocks
    ∧ (∀ c, OutChar c ∈ contents → 32 ≤ c ≤ 126).
Proof.
  intros Hwf Hdirect blocks. unfold header_wf in Hwf.
  cbn [Print].
  assert ((numSectors this <=? NumDirect - 1) = true) as ->
    by (by apply Z.leb_le).
  rewrite print_blocks_Done by lia. cbn.
  destruct (print_contents_Done (Z.to_nat (numSectors this)) 0 0 this d)
    as (contents & Hrun & Hbytes & Hlines); [lia | lia |].
  rewrite Hrun. cbn. exists contents. split; [done|].
  rewrite Z.sub_0_r in Hbytes. split; [done|].
  split; [rewrite Hlines; subst blocks; rewrite length_take; lia|].
  by apply (print_contents_chars _ _ _ _ _ _ Hrun).
Qed.

Lemma Print_direct_witness :
  ∃ contents,
    Print (G:=nachos_geometry) 1 file_500 (synchDisk world_500)
    = Done (OutFileSize 500
            :: (OutBlock <$> [0; 1; 2; 3]) ++ OutContents :: contents)
    ∧ length (filter ends_line contents) = 4%nat.
Proof.
  destruct (Print_direct (G:=nachos_geometry) 0 file_500 (synchDisk world_500))
    as (contents & Hrun & _ & Hlines & _).
  - reflexivity.
  - vm_compute. discriminate.
  - exists contents. split; [exact Hrun | exact Hlines].
Defined.

(** ** Files that need chained headers *)

Opaque FetchFrom WriteBack.

(** The sectors in which [Allocate] puts the chained headers are distinct
    and were not marked before the call. *)
Lemma Allocate_chain_headers {G : Geometry} (HG : geometry_ok G)
    (Hfit : header_fits G) (fuel : nat) : ∀ this w n h' w',
  header_wf this → (Z.to_nat n < fuel)%nat → int32 n → 0 ≤ n →
  n ≤ MaxFileSize →
  Z.of_nat (length (freeMap w)) ≤ 2147483648 →
  sectors_claimed fuel n ≤ NumClear (freeMap w) →
  Allocate fuel this w n = Done (true, h', w') →
  NoDup (chain_headers fuel h' (synchDisk w'))
  ∧ Forall (λ s, Test (freeMap w) s = false)
           (chain_headers fuel h' (synchDisk w')).
Proof.
  pose proof HG as [HS HK].
  induction fuel as [|fuel IH];
    intros this w n h' w' Hwf Hfuel Hn Hn0 Hmax Hlen Hclear Hrun; [lia|].
  pose proof (sectors_claimed_ge HG (S fuel) n Hfuel) as Hge.
  assert (divRoundUp n SectorSize ≤ NumClear (freeMap w)) as Hroom by lia.
  clear Hge. unfold header_wf in Hwf.
  cbn [sectors_claimed] in Hclear.
  cbn [Allocate numSectors with_size dataSectors] in Hrun.
  assert (gtu n MaxFileSize = false) as Hb1 by (unfold gtu; lia).
  assert ((NumClear (freeMap w) <? divRoundUp n SectorSize) = false) as Hb2
    by lia.
  rewrite Hb1, Hb2 in Hrun. clear Hb1 Hb2.
  rewrite gtu_nonneg in Hrun by done.
  destruct (Z.gtb_spec n ((NumDirect - 1) * SectorSize)) as [Hbig|Hsmall].
  - set (rest := n - (NumDirect - 1) * SectorSize) in *.
    destruct (find_loop_spec (Z.to_nat (NumDirect - 1)) 0 (dataSectors this)
                (freeMap w))
      as (ds1 & fm1 & Hrun1 & Hl1 & Hfl1 & Hn1 & _ & Hm1); [lia | lia |].
    rewrite Hrun1 in Hrun. cbn [mbind outcome_bind] in Hrun.
    assert (int32 rest) as Hrest32 by (unfold int32 in *; subst rest; nia).
    destruct (Allocate_chain HG Hfit fuel newFileHeader
                (mkWorld fm1 (synchDisk w)) rest)
      as (child & w2 & EA & Hcok & Hcmarks & Hn2);
      [apply newFileHeader_wf; lia | subst rest; nia | done | subst rest; lia
      | subst rest; nia | cbn; lia | cbn; lia |].
    destruct (IH newFileHeader (mkWorld fm1 (synchDisk w)) rest child w2)
      as [Hnd2 Hfresh2];
      [apply newFileHeader_wf; lia | subst rest; nia | done | subst rest; lia
      | subst rest; nia | cbn; lia | cbn; lia | done |].
    destruct (growth_keeps_header HS fuel newFileHeader
                (mkWorld fm1 (synchDisk w)) rest true child w2)
      as [Hcwf Hcints];
      [apply newFileHeader_wf; lia | apply newFileHeader_ints | done
      | cbn; lia | by left |].
    pose proof (Allocate_inv _ _ _ _ _ _ _ EA) as (_ & Hfl2 & _).
    rewrite EA in Hrun. cbn [mbind outcome_bind freeMap synchDisk] in *.
    pose proof (Find_unmarked (freeMap w2)) as Hun.
    destruct (Find (freeMap w2)) as [s fm3]. cbn [fst] in Hun.
    destruct (store ds1 (NumDirect - 1) s) as [ds2| |] eqn:ES;
      cbn [mbind outcome_bind] in Hrun; try done.
    apply store_inv in ES as [Hk ->].
    injection Hrun as <- <-.
    cbn [chain_headers numBytes numSectors dataSectors synchDisk freeMap
         with_sectors with_size with_indirect].
    assert ((n <=? (NumDirect - 1) * SectorSize) = false) as -> by lia.
    rewrite load_insert by lia. unfold fetch_indirect.
    cbn [indirect with_sectors with_size with_indirect].
    assert (s ∉ chain_headers fuel child (synchDisk w2)) as Hsfresh.
    { intros Hin. rewrite Forall_forall in Hcmarks. apply Hcmarks in Hin.
      congruence. }
    rewrite (FetchFrom_WriteBack_self Hfit) by done.
    destruct (chain_frame fuel child (synchDisk w2) child s Hsfresh)
      as [_ ->].
    split; [by apply NoDup_cons|].
    apply Forall_cons. split.
    + destruct (Test (freeMap w) s) eqn:E; [|done].
      pose proof (Allocate_frame _ _ _ _ _ _ _ EA) as (_ & Hm2).
      destruct (Hm2 s (Hm1 s E)) as [Hs2 _]. congruence.
    + rewrite Forall_forall in Hfresh2 |- *. intros t Ht.
      specialize (Hfresh2 t Ht). cbn in Hfresh2.
      destruct (Test (freeMap w) t) eqn:E; [|done].
      rewrite (Hm1 t E) in Hfresh2. done.
  - destruct (find_loop _ _ _ _) as [[ds1 fm1]| |];
      cbn [mbind outcome_bind] in Hrun; try done.
    injection Hrun as <- <-.
    cbn [chain_headers numBytes with_sectors with_size].
    assert ((n <=? (NumDirect - 1) * SectorSize) = true) as ->
      by (apply Z.leb_le; lia).
    split; [destruct fuel; constructor | destruct fuel; constructor].
Qed.
Transparent FetchFrom WriteBack.

(** X15.  [Allocate] of a size between 0 and [MaxFileSize], on a map that
    has a clear sector for every call of [Find] it makes (one for each
    sector of data and one for each chained header), returns TRUE.  The
    count of clear sectors drops by exactly that number, the chained
    headers are in distinct marked sectors of the disk, and each header of
    the chain, whose object the pointer [indirect] of its parent names,
    describes what is left of the file after the direct slots of its
    parent. *)
Theorem Allocate_claims_data_and_headers {G : Geometry} (HG : geometry_ok G)
    (Hfit : header_fits G) (fuel : nat) (this : FileHeader) (w : World)
    (n : Z) :
  header_wf this → (Z.to_nat n < fuel)%nat → int32 n → 0 ≤ n →
  n ≤ MaxFileSize →
  Z.of_nat (length (freeMap w)) ≤ 2147483648 →
  sectors_claimed fuel n ≤ NumClear (freeMap w) →
  ∃ h' w',
    Allocate fuel this w n = Done (true, h', w')
    ∧ NumClear (freeMap w') = NumClear (freeMap w) - sectors_claimed fuel n
    ∧ NoDup (chain_headers fuel h' (synchDisk w'))
    ∧ Forall (λ s, Test (freeMap w') s = true)
             (chain_headers fuel h' (synchDisk w'))
    ∧ chain_ok fuel h' (synchDisk w') = true.
Proof.
  intros Hwf Hfuel Hn Hn0 Hmax Hlen Hclear.
  destruct (Allocate_chain HG Hfit fuel this w n)
    as (h' & w' & Hrun & Hok & Hmarks & Hcount); try done.
  destruct (Allocate_chain_headers HG Hfit fuel this w n h' w')
    as [Hnd _]; try done.
  by exists h', w'.
Qed.

Lemma Allocate_claims_data_and_headers_witness :
  ∃ h' w',
    Allocate (G:=nachos_geometry) 3841 (newFileHeader (G:=nachos_geometry)) (blank_world 64) 3840
    = Done (true, h', w')
    ∧ NumClear (freeMap w')
      = NumClear (freeMap (blank_world 64))
        - sectors_claimed (G:=nachos_geometry) 3841 3840
    ∧ NoDup (chain_headers (G:=nachos_geometry) 3841 h' (synchDisk w'))
    ∧ Forall (λ s, Test (freeMap w') s = true)
             (chain_headers (G:=nachos_geometry) 3841 h' (synchDisk w'))
    ∧ chain_ok (G:=nachos_geometry) 3841 h' (synchDisk w') = true.
Proof.
  apply (Allocate_claims_data_and_headers (G:=nachos_geometry)
           ltac:(split; reflexivity) ltac:(vm_compute; discriminate)
           3841 (newFileHeader (G:=nachos_geometry)) (blank_world 64) 3840).
  - reflexivity.
  - lia.
  - split; [discriminate | reflexivity].
  - lia.
  - vm_compute. discriminate.
  - vm_compute. discriminate.
  - vm_compute. discriminate.
Defined.

(** ** Bounds and assertions *)

Lemma clear_loop_stops n : ∀ i ds fm j s,
  (j < n)%nat → load ds (i + Z.of_nat j) = Done s → Test fm s = false →
  (∀ k, (k < n)%nat → ∃ t, load ds (i + Z.of_nat k) = Done t) →
  clear_loop n i ds fm = Fault.
Proof.
  induction n as [|n IH]; intros i ds fm j s Hj Hl Hs Hall; [lia|].
  cbn [clear_loop].
  destruct (Hall 0%nat) as [t Ht]; [lia|]. rewrite Z.add_0_r in Ht.
  rewrite Ht. cbn. destruct (release fm t) as [fm1| |] eqn:ER; cbn;
    [|done|by unfold release in ER; destruct (Test fm t)].
  apply release_clears in ER as (Hm & _ & _ & _ & Hmono).
  destruct j as [|j].
  - rewrite Z.add_0_r in Hl. congruence.
  - apply (IH (i + 1) ds fm1 j s); [lia | | by apply Hmono |].
    + by replace (i + 1 + Z.of_nat j) with (i + Z.of_nat (S j)) by lia.
    + intros k Hk. destruct (Hall (S k)) as [u Hu]; [lia|]. exists u.
      by replace (i + 1 + Z.of_nat k) with (i + Z.of_nat (S k)) by lia.
Qed.

(** X16.  [Deallocate] checks every sector it releases: on a header of at
    most [NumDirect] sectors, when one of the slots below [numSectors]
    names a sector that is not marked in the free map, the call stops on
    its [ASSERT] and does not return. *)
Theorem Deallocate_stops_on_unmarked {G : Geometry} (fuel : nat)
    (this : FileHeader) (w : World) (i s : Z) :
  header_wf this → numSectors this ≤ NumDirect →
  0 ≤ i < numSectors this →
  load (dataSectors this) i = Done s → Test (freeMap w) s = false →
  Deallocate (S fuel) this w = Fault.
Proof.
  intros Hwf Hdirect Hi Hl Hs. unfold header_wf in Hwf.
  cbn [Deallocate].
  assert ((numSectors this <=? NumDirect) = true) as -> by (by apply Z.leb_le).
  rewrite (clear_loop_stops _ 0 _ _ (Z.to_nat i) s); [done | lia | | done |].
  - by replace (0 + Z.of_nat (Z.to_nat i)) with i by lia.
  - intros k Hk.
    destruct (lookup_lt_is_Some_2 (dataSectors this) k) as [t Ht]; [lia|].
    exists t. apply load_Done. split; [lia|]. by rewrite Z.add_0_l, Nat2Z.id.
Qed.

Lemma Deallocate_stops_on_unmarked_witness :
  Deallocate (G:=nachos_geometry) 1 file_500 (blank_world 32) = Fault.
Proof.
  apply (Deallocate_stops_on_unmarked (G:=nachos_geometry) 0 file_500
           (blank_world 32) 2 2).
  - reflexivity.
  - vm_compute. discriminate.
  - split; [lia | reflexivity].
  - reflexivity.
  - reflexivity.
Defined.

(** X17.  [ByteToSector] does not compare the offset with the length of
    the file: on a header of at most [NumDirect-1] sectors it returns the
    slot [offset / SectorSize] for every offset that this quotient keeps
    inside the array, past the end of the file as well; the division of C
    rounds towards zero, so that an offset between [-SectorSize] and 0 is
    answered with the first slot. *)
Theorem ByteToSector_unchecked_offset {G : Geometry} (HG : geometry_ok G)
    (fuel : nat) (this : FileHeader) (d : Disk) (offset : Z) :
  header_wf this → numSectors this ≤ NumDirect - 1 →
  - SectorSize < offset < NumDirect * SectorSize →
  ∃ s, ByteToSector (S fuel) this d offset = Done s
       ∧ dataSectors this !! Z.to_nat (Z.quot offset SectorSize) = Some s
       ∧ (offset < 0 → dataSectors this !! 0%nat = Some s).
Proof.
  intros Hwf Hdirect Hoff. destruct HG as [HS HK]. unfold header_wf in Hwf.
  cbn [ByteToSector].
  assert ((numSectors this <=? NumDirect - 1) = true) as ->
    by (by apply Z.leb_le).
  assert (0 ≤ Z.quot offset SectorSize < NumDirect) as Hq by nia.
  destruct (lookup_lt_is_Some_2 (dataSectors this)
              (Z.to_nat (Z.quot offset SectorSize))) as [s Hs]; [lia|].
  exists s. split; [apply load_Done; split; [lia | done]|]. split; [done|].
  intros Hneg. assert (Z.quot offset SectorSize = 0) as Hz by nia.
  by rewrite Hz in Hs.
Qed.

Lemma ByteToSector_unchecked_offset_witness :
  ∃ s, ByteToSector (G:=nachos_geometry) 1 file_500 ∅ (-100) = Done s
       ∧ dataSectors file_500 !! Z.to_nat (Z.quot (-100) 128) = Some s
       ∧ (-100 < 0 → dataSectors file_500 !! 0%nat = Some s).
Proof.
  apply (ByteToSector_unchecked_offset (G:=nachos_geometry)
           ltac:(split; reflexivity) 0 file_500 ∅ (-100)).
  - reflexivity.
  - vm_compute. discriminate.
  - split; reflexivity.
Defined.

(** X18.  [Extend] of a header of at most [NumDirect-1] sectors to a size
    that is not negative and that the direct slots hold, when it passes
    its two tests, returns TRUE, leaves the disk alone and claims one
    sector for each slot from the old [numSectors] up to the new one, and
    no other: the count of clear sectors drops by the difference of the
    two counts, although the test asked for the whole new count. *)
Theorem Extend_claims_the_difference {G : Geometry} (HG : geometry_ok G)
    (fuel : nat) (this : FileHeader) (w : World) (n : Z) :
  header_wf this → 0 ≤ numSectors this ≤ NumDirect - 1 →
  0 ≤ n → n ≤ (NumDirect - 1) * SectorSize →
  divRoundUp n SectorSize ≤ MaxFileSize →
  divRoundUp n SectorSize ≤ NumClear (freeMap w) →
  ∃ h' w',
    Extend (S fuel) this w n = Done (true, h', w')
    ∧ synchDisk w' = synchDisk w
    ∧ NumClear (freeMap w')
      = NumClear (freeMap w)
        - Z.max 0 (divRoundUp n SectorSize - numSectors this)
    ∧ (∀ i, numSectors this ≤ i < divRoundUp n SectorSize →
         ∃ s, load (dataSectors h') i = Done s
              ∧ Test (freeMap w) s = false ∧ Test (freeMap w') s = true).
Proof.
  intros Hwf Hns Hn0 Hdirect Hmax Hclear. destruct HG as [HS HK].
  unfold header_wf in Hwf.
  assert (divRoundUp n SectorSize ≤ NumDirect - 1) as Hnew
    by (by apply divRoundUp_le).
  pose proof (divRoundUp_nonneg n SectorSize HS Hn0) as Hnew0.
  pose proof (NumClear_nonneg (freeMap w)) as Hnn.
  set (new := divRoundUp n SectorSize) in *.
  destruct (find_loop_spec (Z.to_nat (new - numSectors this)) (numSectors this)
              (dataSectors this) (freeMap w))
    as (ds' & fm' & Hrun & _ & _ & Hcount & _); [lia | lia |].
  destruct (find_loop_sectors _ _ _ _ _ _ Hrun)
    as (ss & Hlen & _ & Hcl & Hfm & Hds); [lia|].
  exists (mkFileHeader n new ds' (indirect this)), (mkWorld fm' (synchDisk w)).
  split; [|split; [done|split]].
  - cbn [Extend]. fold new.
    assert (gtu new MaxFileSize = false) as -> by (unfold gtu; lia).
    assert ((NumClear (freeMap w) <? new) = false) as -> by lia.
    assert (gtu n ((NumDirect - 1) * SectorSize) = false) as -> by (unfold gtu; lia).
    by rewrite Hrun.
  - cbn. lia.
  - cbn. intros i Hi.
    destruct (lookup_lt_is_Some_2 ss (Z.to_nat (i - numSectors this)))
      as [s Hs]; [lia|].
    exists (Z.of_nat s). split; [|split].
    + apply load_Done. split; [lia|].
      replace (Z.to_nat i)
        with (Z.to_nat (numSectors this) + Z.to_nat (i - numSectors this))%nat
        by lia.
      by apply Hds.
    + apply Test_lookup. rewrite Forall_forall in Hcl. apply Hcl.
      by apply list_elem_of_lookup_2 in Hs.
    + apply Test_lookup. rewrite Hfm, decide_True; [done|].
      by apply list_elem_of_lookup_2 in Hs.
Qed.

Lemma Extend_claims_the_difference_witness :
  ∃ h' w',
    Extend (G:=nachos_geometry) 1 file_500 world_500 1000 = Done (true, h', w')
    ∧ synchDisk w' = synchDisk world_500
    ∧ NumClear (freeMap w')
      = NumClear (freeMap world_500)
        - Z.max 0 (divRoundUp 1000 128 - numSectors file_500)
    ∧ (∀ i, numSectors file_500 ≤ i < divRoundUp 1000 128 →
         ∃ s, load (dataSectors h') i = Done s
              ∧ Test (freeMap world_500) s = false
              ∧ Test (freeMap w') s = true).
Proof.
  apply (Extend_claims_the_difference (G:=nachos_geometry)
           ltac:(split; reflexivity) 0 file_500 world_500 1000).
  - reflexivity.
  - split; vm_compute; discriminate.
  - lia.
  - vm_compute. discriminate.
  - vm_compute. discriminate.
  - vm_compute. discriminate.
Defined.

(** ** Chained files: [Allocate] followed by [Deallocate] *)

Lemma FetchFrom_agree {G : Geometry} h d1 d2 s :
  ReadSector d1 s = ReadSector d2 s → FetchFrom h d1 s = FetchFrom h d2 s.
Proof. intros Heq. unfold FetchFrom. by rewrite Heq. Qed.

Opaque FetchFrom WriteBack.

(** The sectors [C] that [Allocate] claims for a file none of whose
    headers has exactly [NumDirect] sectors, and what [Deallocate] does
    with the header on any map in which they are marked and any disk that
    holds the chained headers: it releases exactly [C]. *)
Lemma Allocate_Deallocate_chain {G : Geometry} (HG : geometry_ok G)
    (Hfit : header_fits G) (fuel : nat) : ∀ this w n,
  header_wf this → (Z.to_nat n < fuel)%nat → int32 n → 0 ≤ n →
  n ≤ MaxFileSize →
  Z.of_nat (length (freeMap w)) ≤ 2147483648 →
  sectors_claimed fuel n ≤ NumClear (freeMap w) →
  full_node fuel n = false →
  ∃ h' w' (C : list nat),
    Allocate fuel this w n = Done (true, h', w')
    ∧ NoDup C
    ∧ Forall (λ s, freeMap w !! s = Some false) C
    ∧ (∀ k, freeMap w' !! k
            = if decide (k ∈ C) then Some true else freeMap w !! k)
    ∧ (∀ fmX dX,
         Forall (λ s, fmX !! s = Some true) C →
         (∀ c, c ∈ C →
            ReadSector dX (Z.of_nat c) = ReadSector (synchDisk w') (Z.of_nat c)) →
         ∃ fmY,
           Deallocate fuel h' (mkWorld fmX dX) = Done (mkWorld fmY dX)
           ∧ ∀ k, fmY !! k = if decide (k ∈ C) then Some false else fmX !! k).
Proof.
  pose proof HG as [HS HK].
  induction fuel as [|fuel IH];
    intros this w n Hwf Hfuel Hn Hn0 Hmax Hlen Hclear Hfull; [lia|].
  pose proof (sectors_claimed_ge HG (S fuel) n Hfuel) as Hge.
  pose proof (NumClear_nonneg (freeMap w)) as Hnn.
  assert (divRoundUp n SectorSize ≤ NumClear (freeMap w)) as Hroom by lia.
  clear Hge. unfold header_wf in Hwf.
  cbn [full_node sectors_claimed] in Hfull, Hclear.
  cbn [Allocate numSectors with_size dataSectors].
  assert (gtu n MaxFileSize = false) as -> by (unfold gtu; lia).
  assert ((NumClear (freeMap w) <? divRoundUp n SectorSize) = false) as ->
    by lia.
  pose proof (divRoundUp_le n SectorSize (NumDirect - 1) HS) as Hle.
  rewrite gtu_nonneg by done.
  destruct (Z.gtb_spec n ((NumDirect - 1) * SectorSize)) as [Hbig|Hsmall].
  - (* a chained header *)
    cbn [andb] in Hfull. apply orb_false_elim in Hfull as [HnotK Hfull].
    apply Z.eqb_neq in HnotK.
    pose proof (divRoundUp_bounds n SectorSize HS) as Hb.
    assert (NumDirect < divRoundUp n SectorSize) as Hmany by nia.
    set (rest := n - (NumDirect - 1) * SectorSize) in *.
    destruct (find_loop_spec (Z.to_nat (NumDirect - 1)) 0 (dataSectors this)
                (freeMap w))
      as (ds1 & fm1 & Hrun1 & Hl1 & Hfl1 & Hn1 & _); [lia | lia |].
    destruct (find_loop_sectors _ _ _ _ _ _ Hrun1)
      as (ss1 & Hlen1 & Hnd1 & Hcl1 & Hfm1 & Hds1); [lia|].
    rewrite Hrun1. cbn [mbind outcome_bind].
    assert (int32 rest) as Hrest32 by (unfold int32 in *; nia).
    destruct (IH newFileHeader (mkWorld fm1 (synchDisk w)) rest)
      as (child & w2 & C2 & EA & Hnd2 & Hcl2 & Hfm2 & Hfree2);
      [apply newFileHeader_wf; lia | nia | done | subst rest; lia | nia
      | cbn; lia | cbn; lia | done |].
    destruct (Allocate_chain HG Hfit fuel newFileHeader
                (mkWorld fm1 (synchDisk w)) rest)
      as (child' & w2' & EA' & _ & _ & Hn2);
      [apply newFileHeader_wf; lia | nia | done | subst rest; lia | nia
      | cbn; lia | cbn; lia |].
    rewrite EA in EA'. injection EA' as <- <-.
    destruct (growth_keeps_header HS fuel newFileHeader
                (mkWorld fm1 (synchDisk w)) rest true child w2)
      as [Hcwf Hcints];
      [apply newFileHeader_wf; lia | apply newFileHeader_ints | done
      | cbn; lia | by left |].
    rewrite EA. cbn [mbind outcome_bind freeMap synchDisk] in *.
    destruct (Find_first_clear (freeMap w2)) as (s0 & EF & Hs0); [lia|].
    rewrite EF. rewrite store_Done by lia. cbn [mbind outcome_bind].
    assert (s0 ∉ C2) as Hs0C2.
    { intros Hin. specialize (Hfm2 s0). rewrite decide_True in Hfm2 by done.
      congruence. }
    assert (fm1 !! s0 = Some false) as Hs0fm1.
    { specialize (Hfm2 s0). rewrite decide_False in Hfm2 by done. congruence. }
    assert (s0 ∉ ss1) as Hs0ss1.
    { intros Hin. specialize (Hfm1 s0). rewrite decide_True in Hfm1 by done.
      congruence. }
    assert (∀ c, c ∈ C2 → c ∉ ss1) as Hdisj.
    { intros c Hc Hin. rewrite Forall_forall in Hcl2. specialize (Hcl2 c Hc).
      specialize (Hfm1 c). rewrite decide_True in Hfm1 by done. congruence. }
    eexists _, _, (ss1 ++ C2 ++ [s0]). split; [reflexivity|].
    cbn [freeMap synchDisk numSectors dataSectors with_sectors with_size
         with_indirect].
    split.
    { apply NoDup_app. split; [done|]. split.
      - intros c Hc1 Hc. apply elem_of_app in Hc as [Hc|Hc].
        + by apply (Hdisj c).
        + apply list_elem_of_singleton in Hc as ->. done.
      - apply NoDup_app. split; [done|]. split.
        + intros c Hc Hc0. apply list_elem_of_singleton in Hc0 as ->. done.
        + apply NoDup_singleton. }
    split.
    { rewrite !Forall_app. split; [done|]. split.
      - rewrite Forall_forall in Hcl2 |- *. intros c Hc.
        specialize (Hcl2 c Hc). specialize (Hfm1 c).
        rewrite decide_False in Hfm1 by (by apply Hdisj). congruence.
      - apply Forall_singleton. specialize (Hfm1 s0).
        rewrite decide_False in Hfm1 by done. congruence. }
    assert (s0 < length (freeMap w2))%nat as Hs0lt
      by (by apply lookup_lt_Some in Hs0).
    split.
    { intros k. destruct (decide (k ∈ ss1 ++ C2 ++ [s0])) as [Hin|Hnin].
      - rewrite !elem_of_app, list_elem_of_singleton in Hin.
        destruct (decide (k = s0)) as [->|Hne];
          [by rewrite list_lookup_insert_eq|].
        rewrite list_lookup_insert_ne by done. rewrite Hfm2.
        destruct (decide (k ∈ C2)); [done|].
        rewrite Hfm1, decide_True; [done|]. by destruct Hin as [?|[?|?]].
      - rewrite !elem_of_app, list_elem_of_singleton in Hnin.
        rewrite list_lookup_insert_ne by (intros ->; tauto).
        rewrite Hfm2, decide_False by tauto.
        by rewrite Hfm1, decide_False by tauto. }
    intros fmX dX HmX HdX.
    rewrite !Forall_app, Forall_singleton in HmX.
    destruct HmX as (HmX1 & HmX2 & HmX0).
    cbn [Deallocate numSectors dataSectors freeMap synchDisk with_sectors
         with_size with_indirect].
    assert ((divRoundUp n SectorSize <=? NumDirect) = false) as -> by lia.
    destruct (clear_loop_sectors ss1 0 (<[Z.to_nat (NumDirect - 1) := Z.of_nat s0]> ds1)
                fmX) as (fmX1 & Hclr1 & HfmX1); [lia | done | done | |].
    { intros j s Hj. pose proof (lookup_lt_Some _ _ _ Hj) as Hjlt.
      rewrite list_lookup_insert_ne by lia. by apply Hds1. }
    rewrite Hlen1 in Hclr1. rewrite Hclr1. cbn [mbind outcome_bind].
    rewrite load_insert by lia. cbn [mbind outcome_bind].
    unfold fetch_indirect. cbn [indirect with_sectors with_size with_indirect].
    assert (FetchFrom child dX (Z.of_nat s0) = child) as ->.
    { rewrite (FetchFrom_agree _ dX (WriteBack child (synchDisk w2) (Z.of_nat s0)));
        [by apply (FetchFrom_WriteBack_self Hfit)|].
      apply HdX. rewrite !elem_of_app, list_elem_of_singleton. auto. }
    cbn [mbind outcome_bind].
    destruct (Hfree2 fmX1 dX) as (fmY2 & Hdealloc & HfmY2).
    { rewrite Forall_forall in HmX2 |- *. intros c Hc.
      rewrite HfmX1, decide_False by (by apply Hdisj). by apply HmX2. }
    { intros c Hc. rewrite HdX by (rewrite !elem_of_app; auto).
      Transparent WriteBack.
      apply WriteBack_other.
      Opaque WriteBack.
      intros Heq. apply Nat2Z.inj in Heq as ->. done. }
    rewrite Hdealloc. cbn [mbind outcome_bind freeMap synchDisk].
    rewrite release_Done;
      [|by rewrite HfmY2, decide_False, HfmX1, decide_False by done].
    cbn [mbind outcome_bind]. eexists. split; [reflexivity|].
    assert (s0 < length fmY2)%nat as HltY.
    { apply (lookup_lt_Some fmY2 s0 true).
      by rewrite HfmY2, decide_False, HfmX1, decide_False by done. }
    intros k. destruct (decide (k ∈ ss1 ++ C2 ++ [s0])) as [Hin|Hnin].
    + rewrite !elem_of_app, list_elem_of_singleton in Hin.
      destruct (decide (k = s0)) as [->|Hne];
        [by rewrite list_lookup_insert_eq|].
      rewrite list_lookup_insert_ne by done. rewrite HfmY2.
      destruct (decide (k ∈ C2)); [done|].
      rewrite HfmX1, decide_True; [done|]. by destruct Hin as [?|[?|?]].
    + rewrite !elem_of_app, list_elem_of_singleton in Hnin.
      rewrite list_lookup_insert_ne by (intros ->; tauto).
      rewrite HfmY2, decide_False by tauto.
      by rewrite HfmX1, decide_False by tauto.
  - (* the last header of the chain *)
    assert (divRoundUp n SectorSize ≤ NumDirect - 1) as Hns by (apply Hle; lia).
    destruct (find_loop_spec (Z.to_nat (divRoundUp n SectorSize)) 0
                (dataSectors this) (freeMap w))
      as (ds1 & fm1 & Hrun1 & Hl1 & _); [lia | lia |].
    destruct (find_loop_sectors _ _ _ _ _ _ Hrun1)
      as (ss & Hlen1 & Hnd1 & Hcl1 & Hfm1 & Hds1); [lia|].
    rewrite Hrun1. cbn [mbind outcome_bind].
    eexists _, _, ss. split; [reflexivity|].
    cbn [freeMap synchDisk numSectors dataSectors with_sectors with_size].
    split; [done|]. split; [done|]. split; [done|].
    intros fmX dX HmX _.
    cbn [Deallocate numSectors dataSectors freeMap synchDisk with_sectors
         with_size].
    assert ((divRoundUp n SectorSize <=? NumDirect) = true) as ->
      by (apply Z.leb_le; lia).
    destruct (clear_loop_sectors ss 0 ds1 fmX) as (fmY & Hclr & HfmY);
      [lia | done | done | |].
    { intros j s Hj. by apply Hds1. }
    rewrite Hlen1 in Hclr. rewrite Hclr. cbn [mbind outcome_bind].
    by exists fmY.
Qed.

Transparent FetchFrom WriteBack.

(** X19.  [Allocate] followed by [Deallocate] gives back the free map for
    chained files as well, as long as none of the chained headers has
    exactly [NumDirect] sectors: for a size between 0 and [MaxFileSize],
    with a clear sector for every call of [Find], [Allocate] returns TRUE,
    and [Deallocate] of the header it leaves returns with the free map as
    it was before the [Allocate]; the disk keeps the chained headers that
    [Allocate] wrote.  A size above [(NumDirect-1) * SectorSize] meets the
    condition on the headers only if it is above [NumDirect * SectorSize]:
    the property speaks of chained files where [MaxFileSize] is larger
    than that, which the value of the Nachos distribution is not. *)
Theorem Allocate_then_Deallocate_chained {G : Geometry} (HG : geometry_ok G)
    (Hfit : header_fits G) (fuel : nat) (this : FileHeader) (w : World)
    (n : Z) :
  header_wf this → (Z.to_nat n < fuel)%nat → int32 n → 0 ≤ n →
  n ≤ MaxFileSize →
  Z.of_nat (length (freeMap w)) ≤ 2147483648 →
  sectors_claimed fuel n ≤ NumClear (freeMap w) →
  full_node fuel n = false →
  ∃ h' w',
    Allocate fuel this w n = Done (true, h', w')
    ∧ Deallocate fuel h' w' = Done (mkWorld (freeMap w) (synchDisk w')).
Proof.
  intros Hwf Hfuel Hn Hn0 Hmax Hlen Hclear Hfull.
  destruct (Allocate_Deallocate_chain HG Hfit fuel this w n)
    as (h' & w' & C & Hrun & _ & Hcl & Hfm & Hfree); try done.
  exists h', w'. split; [done|].
  destruct (Hfree (freeMap w') (synchDisk w')) as (fmY & Hdealloc & HfmY).
  { rewrite Forall_forall. intros c Hc. by rewrite Hfm, decide_True. }
  { done. }
  replace (mkWorld (freeMap w') (synchDisk w')) with w' in Hdealloc
    by (by destruct w').
  rewrite Hdealloc. do 2 f_equal. apply list_eq. intros k. rewrite HfmY.
  destruct (decide (k ∈ C)) as [Hin|Hnin].
  - rewrite Forall_forall in Hcl. by rewrite (Hcl _ Hin).
  - by rewrite Hfm, decide_False.
Qed.

Lemma Allocate_then_Deallocate_chained_witness :
  ∃ h' w',
    Allocate (G:=small_geometry) 481 (newFileHeader (G:=small_geometry))
             (blank_world 32) 480
    = Done (true, h', w')
    ∧ Deallocate (G:=small_geometry) 481 h' w'
      = Done (mkWorld (freeMap (blank_world 32)) (synchDisk w')).
Proof.
  apply (Allocate_then_Deallocate_chained (G:=small_geometry)
           ltac:(split; reflexivity) ltac:(vm_compute; discriminate) 481
           (newFileHeader (G:=small_geometry)) (blank_world 32) 480).
  - reflexivity.
  - lia.
  - split; [discriminate | reflexivity].
  - lia.
  - vm_compute. discriminate.
  - vm_compute. discriminate.
  - vm_compute. discriminate.
  - vm_compute. reflexivity.
Defined.

(** ** [Print] of a chained file *)

Lemma flat_map_ReadSector_length {G : Geometry} (d : Disk) (l : list Z) :
  length (flat_map (ReadSector d) l) = (length l * Z.to_nat SectorSize)%nat.
Proof.
  induction l as [|s l IH]; [done|]. cbn [flat_map length].
  rewrite length_app, IH. unfold ReadSector. rewrite sector_bytes_length. lia.
Qed.

Lemma printed_blocks (l : list Z) : omap printed (OutBlock <$> l) = [].
Proof. by induction l. Qed.

Lemma printed_heading (n : Z) (bs : list Z) (contents : list output) :
  omap printed (OutFileSize n :: (OutBlock <$> bs) ++ OutContents :: contents)
  = omap printed contents.
Proof.
  change (omap printed ([OutFileSize n] ++ (OutBlock <$> bs)
                        ++ [OutContents] ++ contents)
          = omap printed contents).
  by rewrite !omap_app, printed_blocks.
Qed.

(** X20.  [Print] of a file whose chained headers are held by the objects
    that the pointers [indirect] name and, on disk, each describe what is
    left of the file after the direct slots of their parent, shows the
    whole file and nothing else: the call returns, and the bytes it prints
    are the first [numBytes] bytes of the sectors of the headers of the
    chain, taken in order. *)
Theorem Print_shows_the_file {G : Geometry} (HG : geometry_ok G)
    (depth : nat) : ∀ (fuel : nat) (this : FileHeader) (d : Disk),
  chain_ok depth this d = true → (depth < fuel)%nat →
  ∃ out,
    Print fuel this d = Done out
    ∧ omap printed out
      = (λ c, c mod 256)
        <$> take (Z.to_nat (numBytes this))
              (flat_map (ReadSector d) (shown_blocks (S depth) this d)).
Proof.
  pose proof HG as [HS HK].
  induction depth as [|depth IH]; intros fuel this d Hok Hfuel;
    (destruct fuel as [|fuel]; [lia|]);
    pose proof (chain_ok_head _ _ _ Hok) as [Hwf Hsz];
    pose proof (divRoundUp_le (numBytes this) SectorSize (NumDirect - 1) HS)
      as Hle;
    unfold header_wf in Hwf; cbn [Print shown_blocks].
  - (* no header may follow *)
    assert (numBytes this ≤ (NumDirect - 1) * SectorSize) as Hsmall.
    { cbn in Hok. apply andb_prop in Hok as [_ Hok].
      rewrite orb_false_r in Hok. by apply Z.leb_le. }
    assert ((numSectors this <=? NumDirect - 1) = true) as ->
      by (apply Z.leb_le; lia).
    rewrite print_blocks_Done by lia. cbn [mbind outcome_bind].
    destruct (print_contents_Done (Z.to_nat (numSectors this)) 0 0 this d)
      as (contents & -> & Hbytes & _); [lia | lia |].
    cbn [mbind outcome_bind]. eexists. split; [reflexivity|].
    by rewrite printed_heading, Hbytes, Z.sub_0_r.
  - destruct (Z.leb_spec (numSectors this) (NumDirect - 1)) as [Hdirect|Hchain].
    + rewrite print_blocks_Done by lia. cbn [mbind outcome_bind].
      destruct (print_contents_Done (Z.to_nat (numSectors this)) 0 0 this d)
        as (contents & -> & Hbytes & _); [lia | lia |].
      cbn [mbind outcome_bind]. eexists. split; [reflexivity|].
      by rewrite printed_heading, Hbytes, Z.sub_0_r.
    + assert ((NumDirect - 1) * SectorSize < numBytes this) as Hbig by lia.
      destruct (chain_ok_child _ _ _ Hok Hbig)
        as (depth' & s & child & [= <-] & Hload & Hfetch & Hcb & Hcok).
      rewrite print_blocks_Done by lia. cbn [mbind outcome_bind].
      destruct (print_contents_Done (Z.to_nat (NumDirect - 1)) 0 0 this d)
        as (contents & -> & Hbytes & _); [lia | lia |].
      cbn [mbind outcome_bind]. rewrite Hload. cbn [mbind outcome_bind].
      rewrite Hfetch. cbn [mbind outcome_bind].
      destruct (IH fuel child d Hcok) as (rest & -> & Hrest); [lia|].
      cbn [mbind outcome_bind]. eexists. split; [reflexivity|].
      rewrite printed_heading, omap_app, Hbytes, Hrest, Hcb, Z.sub_0_r.
      cbn [drop]. rewrite flat_map_app, take_app, fmap_app.
      rewrite flat_map_ReadSector_length, length_take.
      set (A := flat_map (ReadSector d)
                  (take (Z.to_nat (NumDirect - 1)) (dataSectors this))).
      f_equal. f_equal. f_equal. nia.
Qed.

Lemma Print_shows_the_file_witness :
  ∃ out,
    Print (G:=nachos_geometry) 2 file_3840 (synchDisk world_3840) = Done out
    ∧ omap printed out
      = (λ c, c mod 256)
        <$> take (Z.to_nat (numBytes file_3840))
              (flat_map (ReadSector (G:=nachos_geometry) (synchDisk world_3840))
                 (shown_blocks (G:=nachos_geometry) 2 file_3840
                    (synchDisk world_3840))).
Proof.
  apply (Print_shows_the_file (G:=nachos_geometry) ltac:(split; reflexivity)
           1 2 file_3840 (synchDisk world_3840)).
  - vm_compute. reflexivity.
  - lia.
Defined.

(** ** Chained files: what [Extend] keeps *)
Opaque FetchFrom WriteBack.

Transparent FetchFrom WriteBack.




